(** * Galago: a shallow embedding of the synthetic execution environment

    The development follows the Go packages of the repository:
    [emulator] (address space, bump allocator, mock-object graph, ELF
    relocations, entry-point selection), [stubs] (registry and install
    cycle), [cxxabi] (static-initialisation guards, the libc++ SSO string
    codec), [setters] (key capture hooks) and the driver of [cmd/galago].

    Conventions.  A [uint64] is a [Z] with its wrap-around written out
    ([u64]); a byte is a [Z] in [0,256) and [byte(x)] is [u8 x]; a Go
    [[]byte] and the contents of a Go [string] read from guest memory are
    [list Z]; symbol names are [string]; a Go [map] is a [gmap], and a
    [range] over a map receives its iteration order as an explicit list,
    because Go leaves that order unspecified.  A function that may panic
    returns an [outcome]; a function that returns a Go [error] returns an
    [option]. *)

From Stdlib Require Import ZArith List Bool Lia Ascii String.
From stdpp Require Import base gmap strings list pretty.

Local Open Scope Z_scope.

(** ** Machine integers and byte order *)

Definition u64 (x : Z) : Z := x mod 2 ^ 64.
Definition u8 (x : Z) : Z := x mod 256.

(** [int64(x)] for a [uint64] bit pattern [x]. *)
Definition int64 (x : Z) : Z :=
  if u64 x <? 2 ^ 63 then u64 x else u64 x - 2 ^ 64.

(** [binary.LittleEndian.PutUint64] and [binary.LittleEndian.Uint64]. *)
Definition PutUint64 (v : Z) : list Z := Z_to_little_endian 8 8 v.
Definition Uint64 (b : list Z) : Z := little_endian_to_Z 8 (take 8 b).

(** [^uint64(15)]. *)
Definition not15 : Z := 0xFFFFFFFFFFFFFFF0.

(** [uint64(d[off]) | uint64(d[off+1])<<8 | ... | uint64(d[off+7])<<56],
    the expression the string codecs spell out. *)
Definition byte_at (data : list Z) (i : nat) : Z := nth i data 0.

Definition le64_at (data : list Z) (off : nat) : Z :=
  foldl (fun acc k =>
           Z.lor acc (Z.shiftl (byte_at data (off + k)) (8 * Z.of_nat k)))
        (byte_at data off) (seq 1 7).

(** [byte(v), byte(v >> 8), ..., byte(v >> 56)]. *)
Definition put64 (v : Z) : list Z :=
  map (fun k => u8 (Z.shiftr v (8 * Z.of_nat k))) (seq 0 8).

(** ** Go strings

    A Go string is a sequence of bytes, here a [string].  [Contains],
    [HasPrefix], [HasSuffix] and [Index] compare bytes.  [strings.ToLower]
    lowers a string without a byte of 0x80 or more byte by byte, and
    [strings.EqualFold] on two such strings compares them up to the case
    of the letters A-Z; [ToLower] and [EqualFold] below are the library
    functions on those strings ([is_ascii]), and the statements that
    depend on what they return assume it of their arguments. *)

Module GoStrings.

Definition is_ascii (s : string) : bool :=
  forallb (fun c => (N_of_ascii c <? 128)%N) (list_ascii_of_string s).

Definition lower (c : ascii) : ascii :=
  let n := N_of_ascii c in
  if ((65 <=? n) && (n <=? 90))%N then ascii_of_N (n + 32) else c.

Fixpoint ToLower (s : string) : string :=
  match s with
  | EmptyString => EmptyString
  | String c s => String (lower c) (ToLower s)
  end.

Definition HasPrefix (s prefix : string) : bool := String.prefix prefix s.

Fixpoint Contains (s substr : string) : bool :=
  HasPrefix s substr ||
  match s with
  | EmptyString => false
  | String _ s' => Contains s' substr
  end.

(** [strings.Index]: [None] stands for -1. *)
Fixpoint Index (s substr : string) : option nat :=
  if HasPrefix s substr then Some 0%nat
  else match s with
       | EmptyString => None
       | String _ s' => S <$> Index s' substr
       end.

Definition HasSuffix (s suffix : string) : bool :=
  let n := String.length s in
  let k := String.length suffix in
  (k <=? n)%nat && String.eqb (String.substring (n - k) k s) suffix.

Definition EqualFold (s t : string) : bool :=
  String.eqb (ToLower s) (ToLower t).

(** [s[:idx]]. *)
Definition slice_to (s : string) (idx : nat) : string :=
  String.substring 0 idx s.

End GoStrings.

(** ** Panics *)

Inductive outcome (A : Type) : Type :=
| Done (a : A)
| Panicked (msg : string).
Arguments Done {A} a.
Arguments Panicked {A} msg.

#[global] Instance outcome_ret : MRet outcome := fun A a => Done a.
#[global] Instance outcome_bind : MBind outcome := fun A B f m =>
  match m with
  | Done a => f a
  | Panicked msg => Panicked msg
  end.

(** ** Data shared by the packages *)

(** [emulator.SlotInfo] (vtable.go). *)
Record SlotInfo := mkSlotInfo {
  Target : Z;
  SymName : string;
  RelocType : Z;
  SlotIndex : Z
}.

(** The stub functions registered with the registry that this development
    interprets; every other registered function is [stubOther]. *)
Inductive HookFunc :=
| stubCxaGuardAcquire
| stubCxaGuardRelease
| stubCxaGuardAbort
| stubCxaAtexit
| stubOther (fn : string).

(** [stubs.StubDef]. *)
Record StubDef := mkStubDef {
  Name : string;
  Aliases : list string;
  Hook : HookFunc;
  Category : string
}.

(** The closures the code stores in [Emulator.addrHooks], one constructor
    per [func] literal or closure-returning function, carrying the
    variables the closure captures. *)
Inductive AddressHookFunc :=
| VtableStubHook                                   (* makeVtableStubHook *)
| CallbackStubHook                                 (* makeCallbackStubHook *)
| MockObj2CallHook (mockObj : Z)                   (* makeMockObj2CallHook *)
| InstalledStub (stub : StubDef)                   (* Install: installStub *)
| FallbackStub (symName : string)                  (* Install: fallback *)
| XXTeaKeyHook (funcName : string)                 (* makeXXTeaKeyHook *)
| GenericKeyHook (funcName keyType : string)       (* makeGenericKeyHook *)
| StdStringSetterHook (funcName : string)          (* makeStdStringSetterHook *)
| DriverVtableHook (setterSlots : gmap Z SlotInfo) (slotIdx mockObj : Z)
                                                   (* installVtableStubHooks *)
| SentinelHook.                                    (* runTrace *)

(** ** Package emulator: the address-space manager *)

Module Emu.

(** Memory layout constants. *)
Definition CodeBase : Z := 0x00010000.
Definition CodeSize : Z := 0x01000000.
Definition StackBase : Z := 0x80000000.
Definition StackSize : Z := 0x00100000.
Definition HeapBase : Z := 0x90000000.
Definition HeapSize : Z := 0x10000000.
Definition MockObjBase : Z := 0xDEAB0000.
Definition MockObjSize : Z := 0x00010000.
Definition TLSBase : Z := 0xDEAC0000.
Definition TLSSize : Z := 0x00010000.
Definition LibcBase : Z := 0xDEAD0000.
Definition LibcSize : Z := 0x00010000.
Definition StubBase : Z := 0xF0000000.
Definition StubSize : Z := 0x00100000.

(** Libc global layout. *)
Definition CtypeTableOffset : Z := 0x0000.
Definition CtypePtrOffset : Z := 0x0200.
Definition EmptyStringRepOff : Z := 0x0300.
Definition EmptyStringDataOff : Z := 0x0318.

Definition VtableStubCount : Z := 256.

(** Registers of the CPU library that the code reads and writes. *)
Inductive Reg := RegX (n : Z) | RegSP | RegPC | RegLR | RegTPIDR_EL0.

Definition Reg_eqb (r1 r2 : Reg) : bool :=
  match r1, r2 with
  | RegX n, RegX m => n =? m
  | RegSP, RegSP | RegPC, RegPC | RegLR, RegLR => true
  | RegTPIDR_EL0, RegTPIDR_EL0 => true
  | _, _ => false
  end.

(** The emulator: the state of the CPU library (mapped regions, byte
    memory, registers) and the fields of the Go [Emulator] struct. *)
Record Emulator := mkEmulator {
  regions : list (Z * Z);
  mem : Z -> Z;
  regs : Reg -> Z;
  heapPtr : Z;
  addrHooks : gmap Z AddressHookFunc;
  stopped : bool;
  emptyStringData : Z
}.

Definition with_regions (rs : list (Z * Z)) (e : Emulator) : Emulator :=
  mkEmulator rs (mem e) (regs e) (heapPtr e) (addrHooks e) (stopped e)
             (emptyStringData e).
Definition with_mem (m : Z -> Z) (e : Emulator) : Emulator :=
  mkEmulator (regions e) m (regs e) (heapPtr e) (addrHooks e) (stopped e)
             (emptyStringData e).
Definition with_regs (r : Reg -> Z) (e : Emulator) : Emulator :=
  mkEmulator (regions e) (mem e) r (heapPtr e) (addrHooks e) (stopped e)
             (emptyStringData e).
Definition with_heapPtr (p : Z) (e : Emulator) : Emulator :=
  mkEmulator (regions e) (mem e) (regs e) p (addrHooks e) (stopped e)
             (emptyStringData e).
Definition with_addrHooks (h : gmap Z AddressHookFunc) (e : Emulator)
  : Emulator :=
  mkEmulator (regions e) (mem e) (regs e) (heapPtr e) h (stopped e)
             (emptyStringData e).
Definition with_stopped (b : bool) (e : Emulator) : Emulator :=
  mkEmulator (regions e) (mem e) (regs e) (heapPtr e) (addrHooks e) b
             (emptyStringData e).
Definition with_emptyStringData (p : Z) (e : Emulator) : Emulator :=
  mkEmulator (regions e) (mem e) (regs e) (heapPtr e) (addrHooks e)
             (stopped e) p.

(** *** The CPU library's memory (contract of section 6.3 of the spec) *)

Definition in_region (a : Z) (r : Z * Z) : bool :=
  (fst r <=? a) && (a <? fst r + snd r).

Definition is_mapped (rs : list (Z * Z)) (a : Z) : bool :=
  existsb (in_region a) rs.

Fixpoint all_mapped (rs : list (Z * Z)) (n : nat) (a : Z) : bool :=
  match n with
  | O => true
  | S n => if is_mapped rs a then all_mapped rs n (a + 1) else false
  end.

(** Every byte of [addr, addr+size) lies in a mapped region. *)
Definition mapped_range (rs : list (Z * Z)) (addr size : Z) : bool :=
  all_mapped rs (Z.to_nat size) addr.

Definition overlaps (base size : Z) (r : Z * Z) : bool :=
  (base <? fst r + snd r) && (fst r <? base + size).

(** [uc.MemMap]: page-aligned, non-empty, not overlapping a mapped region;
    fresh memory reads as zero. *)
Definition uc_MemMap (e : Emulator) (base size : Z) : option Emulator :=
  if (size <=? 0) || negb (base mod 0x1000 =? 0) || negb (size mod 0x1000 =? 0)
     || existsb (overlaps base size) (regions e)
  then None
  else Some (with_regions (regions e ++ [(base, size)]) e).

Definition write_bytes (m : Z -> Z) (addr : Z) (data : list Z) : Z -> Z :=
  fun a =>
    if (addr <=? a) && (a <? addr + Z.of_nat (length data))
    then nth (Z.to_nat (a - addr)) data 0
    else m a.

Fixpoint read_from (m : Z -> Z) (n : nat) (a : Z) : list Z :=
  match n with
  | O => []
  | S n => m a :: read_from m n (a + 1)
  end.

Definition read_bytes (m : Z -> Z) (addr size : Z) : list Z :=
  read_from m (Z.to_nat size) addr.

(** [Emulator.MemRead]; the PHI scan it performs does not change the data. *)
Definition MemRead (e : Emulator) (addr size : Z) : option (list Z) :=
  if mapped_range (regions e) addr size
  then Some (read_bytes (mem e) addr size)
  else None.

(** [Emulator.MemWrite]. *)
Definition MemWrite (e : Emulator) (addr : Z) (data : list Z)
  : option Emulator :=
  if mapped_range (regions e) addr (Z.of_nat (length data))
  then Some (with_mem (write_bytes (mem e) addr data) e)
  else None.

(** A call whose error result the code discards. *)
Definition MemWrite_ (e : Emulator) (addr : Z) (data : list Z) : Emulator :=
  default e (MemWrite e addr data).

Definition MemReadU64 (e : Emulator) (addr : Z) : option Z :=
  Uint64 <$> MemRead e addr 8.

(** [Emulator.MemReadString]: at most [maxLen] bytes, cut at the first NUL. *)
Fixpoint until_nul (data : list Z) : list Z :=
  match data with
  | [] => []
  | b :: rest => if b =? 0 then [] else b :: until_nul rest
  end.

Definition MemReadString (e : Emulator) (addr maxLen : Z)
  : option (list Z) :=
  let maxLen := if maxLen <=? 0 then 4096 else maxLen in
  until_nul <$> MemRead e addr maxLen.

(** [str, _ := emu.MemReadString(...)]: the empty string on error. *)
Definition MemReadString_ (e : Emulator) (addr maxLen : Z) : list Z :=
  default [] (MemReadString e addr maxLen).

(** *** Registers *)

Definition RegRead (e : Emulator) (r : Reg) : Z := regs e r.

Definition RegWrite (e : Emulator) (r : Reg) (val : Z) : Emulator :=
  with_regs (fun r' => if Reg_eqb r' r then val else regs e r') e.

Definition X (e : Emulator) (n : Z) : Z :=
  if (n <? 0) || (30 <? n) then 0 else RegRead e (RegX n).

Definition SetX (e : Emulator) (n val : Z) : Emulator :=
  if (n <? 0) || (30 <? n) then e else RegWrite e (RegX n) val.

Definition PC (e : Emulator) : Z := RegRead e RegPC.
Definition SetPC (e : Emulator) (val : Z) : Emulator := RegWrite e RegPC val.
Definition LR (e : Emulator) : Z := RegRead e RegLR.
Definition SetLR (e : Emulator) (val : Z) : Emulator := RegWrite e RegLR val.

Definition GetMockObject : Z := MockObjBase + 0x2000.
Definition GetVtableStubs : Z := MockObjBase + 0x4000.
Definition GetCtypePtr : Z := LibcBase + CtypePtrOffset.
Definition GetEmptyStringData (e : Emulator) : Z := emptyStringData e.

(** *** Sized accessors *)









(** [Emulator.MemWriteString]: [append([]byte(s), 0)]. *)
Definition MemWriteString (e : Emulator) (addr : Z) (s : list Z)
  : option Emulator :=
  MemWrite e addr (s ++ [0]).

(** [Emulator.isPrintableASCII], the test in front of the PHI scan of
    [MemRead]. *)
Definition isPrintableASCII (data : list Z) : bool :=
  if (length data =? 0)%nat then false
  else forallb (fun b => negb ((b <? 32) || (b >? 126))) data.

(** *** The bump allocator *)

Definition Malloc (e : Emulator) (size : Z) : outcome (Z * Emulator) :=
  let size := Z.land (u64 (size + 15)) not15 in
  let addr := heapPtr e in
  let e := with_heapPtr (u64 (heapPtr e + size)) e in
  if heapPtr e >=? HeapBase + HeapSize
  then Panicked "heap exhausted"
  else Done (addr, e).

(** [Emulator.HookAddress] and [Emulator.RemoveAddressHook]. *)
Definition HookAddress (e : Emulator) (addr : Z) (fn : AddressHookFunc)
  : Emulator :=
  with_addrHooks (<[addr := fn]> (addrHooks e)) e.

Definition RemoveAddressHook (e : Emulator) (addr : Z) : Emulator :=
  with_addrHooks (delete addr (addrHooks e)) e.

(** *** The hooks attached at construction (section 4.2 of the spec) *)

Definition in_stack (x8 : Z) : bool :=
  (StackBase <=? x8) && (x8 <? StackBase + StackSize).

Definition makeVtableStubHook (emu : Emulator) : outcome (Emulator * bool) :=
  let x8 := X emu 8 in
  if in_stack x8 then
    let repSize := 24 in
    let dataSize := 16 in
    let total := repSize + dataSize in
    '(repPtr, emu) ← Malloc emu total;
    if repPtr =? 0 then
      Done (SetX emu 0 GetMockObject, false)
    else
      let dataPtr := u64 (repPtr + repSize) in
      let repHeader := PutUint64 0 ++ PutUint64 15 ++ replicate 8 0 in
      let emu := MemWrite_ emu repPtr repHeader in
      let nullData := replicate (Z.to_nat dataSize) 0 in
      let emu := MemWrite_ emu dataPtr nullData in
      let emu := MemWrite_ emu x8 (PutUint64 dataPtr) in
      Done (SetX emu 0 x8, false)
  else
    Done (SetX emu 0 GetMockObject, false).

Definition makeCallbackStubHook (emu : Emulator) : outcome (Emulator * bool) :=
  let x8 := X emu 8 in
  if in_stack x8 then
    let repSize := 24 in
    let dataSize := 16 in
    let total := repSize + dataSize in
    '(repPtr, emu) ← Malloc emu total;
    if repPtr =? 0 then
      Done (SetX emu 0 0, false)
    else
      let dataPtr := u64 (repPtr + repSize) in
      let repHeader := PutUint64 0 ++ PutUint64 15 ++ replicate 8 0 in
      let emu := MemWrite_ emu repPtr repHeader in
      let nullData := replicate (Z.to_nat dataSize) 0 in
      let emu := MemWrite_ emu dataPtr nullData in
      let emu := MemWrite_ emu x8 (PutUint64 dataPtr) in
      Done (SetX emu 0 x8, false)
  else
    Done (SetX emu 0 0, false).

Definition makeMockObj2CallHook (mockObj : Z) (emu : Emulator)
  : outcome (Emulator * bool) :=
  Done (SetX emu 0 mockObj, false).

(** *** The [_ctype_] table *)

(** The [switch] of [mapMemory] on [c := byte(i)]. *)
Definition ctype_flags (c : Z) : Z :=
  if (65 <=? c) && (c <=? 90) then            (* 'A' .. 'Z' *)
    (if 70 <? c then 0x01 else Z.lor 0x01 0x80)
  else if (97 <=? c) && (c <=? 122) then      (* 'a' .. 'z' *)
    (if 102 <? c then 0x02 else Z.lor 0x02 0x80)
  else if (48 <=? c) && (c <=? 57) then       (* '0' .. '9' *)
    Z.lor 0x04 0x80
  else if c =? 32 then Z.lor 0x08 0x40        (* ' ' *)
  else if c =? 9 then Z.lor 0x08 0x40         (* '\t' *)
  else if (c =? 10) || (c =? 13) || (c =? 12) || (c =? 11) then 0x08
  else if (c <? 0x20) || (c =? 0x7F) then 0x20
  else if (0x21 <=? c) && (c <=? 0x2F) then 0x10
  else if (0x3A <=? c) && (c <=? 0x40) then 0x10
  else if (0x5B <=? c) && (c <=? 0x60) then 0x10
  else if (0x7B <=? c) && (c <=? 0x7E) then 0x10
  else 0.

(** [ctypeTable := make([]byte, 257)] filled by the loop over [i]. *)
Definition ctypeTable : list Z :=
  foldl (fun t i => <[Z.to_nat (i + 1) := ctype_flags (u8 i)]> t)
        (<[0%nat := 0]> (replicate 257 0)) (seqZ 0 256).

(** *** Construction *)

(** A [for] loop whose body may return an error. *)
Fixpoint forM {A : Type} (body : Emulator -> A -> option Emulator)
    (l : list A) (e : Emulator) : option Emulator :=
  match l with
  | [] => Some e
  | a :: l => e ← body e a; forM body l e
  end.

Definition fixed_regions : list (Z * Z) :=
  [ (CodeBase, CodeSize); (StackBase, StackSize); (HeapBase, HeapSize);
    (MockObjBase, MockObjSize); (TLSBase, TLSSize); (LibcBase, LibcSize);
    (StubBase, StubSize) ].

(** ARM64 [RET] = 0xd65f03c0. *)
Definition retInsn : list Z := [0xc0; 0x03; 0x5f; 0xd6].

(** ["12_MockObject\x00"]. *)
Definition nameBytes : list Z :=
  [49; 50; 95; 77; 111; 99; 107; 79; 98; 106; 101; 99; 116; 0].

Definition mapMemory (e : Emulator) : option Emulator :=
  e ← forM (fun e r => uc_MemMap e (fst r) (snd r)) fixed_regions e;
  let sp := StackBase + StackSize - 0x1000 in
  let e := RegWrite e RegSP sp in
  let mockVtableAddr := MockObjBase + 0x1010 in
  let stackFillPattern := PutUint64 mockVtableAddr in
  let stackFillSize := 0x10000 in
  let stackFillBuf :=
    concat (replicate (Z.to_nat (stackFillSize / 8)) stackFillPattern) in
  let stackFillBase := StackBase + StackSize - stackFillSize in
  let e := MemWrite_ e stackFillBase stackFillBuf in
  let e := RegWrite e RegTPIDR_EL0 TLSBase in
  let zeros := replicate 256 0 in
  e ← MemWrite e TLSBase zeros;
  let canary := 0xDEADBEEFDEADBEEF in
  e ← MemWrite e (TLSBase + 0x28) (PutUint64 canary);
  e ← MemWrite e (LibcBase + CtypeTableOffset) ctypeTable;
  let ctypePtr := LibcBase + CtypeTableOffset + 1 in
  e ← MemWrite e (LibcBase + CtypePtrOffset) (PutUint64 ctypePtr);
  let emptyRep :=
    <[19%nat := 0xFF]> (<[18%nat := 0xFF]> (<[17%nat := 0xFF]>
      (<[16%nat := 0xFF]> (replicate 32 0)))) in
  e ← MemWrite e (LibcBase + EmptyStringRepOff) emptyRep;
  let e := with_emptyStringData (LibcBase + EmptyStringDataOff) e in
  let mockTypeInfo := MockObjBase + 0x0800 in
  let mockVtablePrefix := MockObjBase + 0x1000 in
  let mockVtable := MockObjBase + 0x1010 in
  let mockObj := MockObjBase + 0x2000 in
  let mockObj2 := MockObjBase + 0x3000 in
  let vtableStubs := MockObjBase + 0x4000 in
  let callbackStubs := MockObjBase + 0x5000 in
  let typeInfoName := mockTypeInfo + 0x100 in
  e ← MemWrite e typeInfoName nameBytes;
  let typeInfoData := PutUint64 mockVtable ++ PutUint64 typeInfoName in
  e ← MemWrite e mockTypeInfo typeInfoData;
  let rttiPrefix := PutUint64 0 ++ PutUint64 mockTypeInfo in
  e ← MemWrite e mockVtablePrefix rttiPrefix;
  e ← forM (fun e i =>
        let stubAddr := vtableStubs + i * 4 in
        e ← MemWrite e stubAddr retInsn;
        e ← MemWrite e (mockVtable + i * 8) (PutUint64 stubAddr);
        Some (with_addrHooks (<[stubAddr := VtableStubHook]> (addrHooks e)) e))
      (seqZ 0 256) e;
  e ← forM (fun e i =>
        let stubAddr := callbackStubs + i * 4 in
        e ← MemWrite e stubAddr retInsn;
        Some (with_addrHooks (<[stubAddr := CallbackStubHook]> (addrHooks e)) e))
      (seqZ 0 256) e;
  e ← forM (fun e i =>
        let addr := mockObj2 + i * 4 in
        e ← MemWrite e addr retInsn;
        Some (with_addrHooks
                (<[addr := MockObj2CallHook mockObj]> (addrHooks e)) e))
      (seqZ 0 256) e;
  let vtableBytes := PutUint64 mockVtable in
  e ← MemWrite e mockObj vtableBytes;
  let obj2Bytes := PutUint64 mockObj2 in
  let e := foldl (fun e i =>
        let e := MemWrite_ e (mockObj + i * 8) obj2Bytes in
        let callbackAddr := callbackStubs + (i mod 256) * 4 in
        MemWrite_ e (mockObj2 + i * 8) (PutUint64 callbackAddr))
      e (seqZ 1 255) in
  e ← MemWrite e mockObj2 vtableBytes;
  Some e.

(** The state [New] hands to [mapMemory]: a fresh CPU (nothing mapped,
    registers zero), [heapPtr: HeapBase] and an empty hook map.  The
    compliance components [New] also creates hold no emulator state. *)
Definition fresh : Emulator :=
  mkEmulator [] (fun _ => 0) (fun _ => 0) HeapBase ∅ false 0.

(** [New]; [setupHooks] registers the dispatcher [codeHook] defined below
    and changes no field. *)
Definition New : option Emulator := mapMemory fresh.

End Emu.

(** ** Package emulator: ELF relocations and entry-point selection *)

Module Elf.
Import Emu GoStrings.

Definition R_AARCH64_ABS64 : Z := 257.
Definition R_AARCH64_GLOB_DAT : Z := 1025.
Definition R_AARCH64_JUMP_SLOT : Z := 1026.
Definition R_AARCH64_RELATIVE : Z := 1027.

Definition LoadELFBase : Z := 0x40000000.

(** The fields of [elf.Symbol] the loader reads. *)
Record Symbol := mkSymbol {
  sym_Name : string;
  sym_Value : Z
}.

(** One RELA entry: [r_offset], [r_info], [r_addend] as read by
    [binary.LittleEndian.Uint64]. *)
Record Rela := mkRela {
  r_offset : Z;
  r_info : Z;
  r_addend : Z
}.

(** [for i := 0; i+entrySize <= len(data); i += entrySize]. *)
Fixpoint relaEntries (fuel : nat) (data : list Z) : list Rela :=
  match fuel with
  | O => []
  | S fuel =>
    if (24 <=? length data)%nat
    then mkRela (Uint64 data) (Uint64 (drop 8 data)) (Uint64 (drop 16 data))
         :: relaEntries fuel (drop 24 data)
    else []
  end.

(** [symByIndex[i+1] = sym] for the [i]-th dynamic symbol. *)
Definition symByIndex (dynSyms : list Symbol) : gmap Z Symbol :=
  list_to_map (imap (fun i sym => (Z.of_nat i + 1, sym)) dynSyms).

(** The version-suffix stripping of the ABS64 branch. *)
Definition stripVersion (symName : string) : string :=
  match Index symName "@@" with
  | Some idx => slice_to symName idx
  | None =>
    match Index symName "@" with
    | Some idx => slice_to symName idx
    | None => symName
    end
  end.

(** The body of the loop of [applyRelocations] for one entry. *)
Definition applyRelocation (relocOffset : Z) (imports : gmap string Z)
    (syms : gmap Z Symbol) (e : Emulator) (r : Rela) : Emulator :=
  let rOffset := r_offset r in
  let rInfo := r_info r in
  let rAddend := int64 (r_addend r) in
  let relType := Z.land rInfo 0xFFFFFFFF in
  let symIdx := Z.shiftr rInfo 32 in
  let targetAddr := u64 (rOffset + relocOffset) in
  if relType =? R_AARCH64_RELATIVE then
    let resolved := u64 (relocOffset + u64 rAddend) in
    MemWrite_ e targetAddr (PutUint64 resolved)
  else if (relType =? R_AARCH64_GLOB_DAT) || (relType =? R_AARCH64_JUMP_SLOT)
  then
    match syms !! symIdx with
    | Some sym =>
      if negb (sym_Value sym =? 0) then
        let resolved := u64 (sym_Value sym + relocOffset) in
        MemWrite_ e targetAddr (PutUint64 resolved)
      else if String.eqb (sym_Name sym) "__stack_chk_guard" then
        let canaryAddr := TLSBase + 0x28 in
        MemWrite_ e targetAddr (PutUint64 canaryAddr)
      else if String.eqb (sym_Name sym) "_ctype_" then
        let ctypeAddr := LibcBase + CtypeTableOffset + 1 in
        MemWrite_ e targetAddr (PutUint64 ctypeAddr)
      else e
    | None => e
    end
  else if relType =? R_AARCH64_ABS64 then
    match syms !! symIdx with
    | Some sym =>
      if negb (sym_Value sym =? 0) then
        let resolved := u64 (u64 (sym_Value sym + relocOffset) + u64 rAddend) in
        MemWrite_ e targetAddr (PutUint64 resolved)
      else if negb (String.eqb (sym_Name sym) "") then
        let symName := stripVersion (sym_Name sym) in
        match imports !! symName with
        | Some stubAddr =>
          let resolved := u64 (stubAddr + u64 rAddend) in
          MemWrite_ e targetAddr (PutUint64 resolved)
        | None => e
        end
      else e
    | None =>
      if rAddend >? 0 then
        let resolved := u64 (relocOffset + u64 rAddend) in
        MemWrite_ e targetAddr (PutUint64 resolved)
      else e
    end
  else e.

(** [applyRelocations] over the data of the [.rela.dyn] and [.rela.plt]
    sections, in section order. *)
Definition applyRelocations (e : Emulator) (dynSyms : list Symbol)
    (sections : list (list Z)) (relocOffset : Z) (imports : gmap string Z)
  : Emulator :=
  let syms := symByIndex dynSyms in
  foldl (fun e data =>
           foldl (applyRelocation relocOffset imports syms) e
                 (relaEntries (length data) data))
        e sections.

(** The fields of [ELFInfo] that entry-point selection reads. *)
Record ELFInfo := mkELFInfo {
  Entry : Z;
  Symbols : gmap string Z;
  Imports : gmap string Z
}.

(** [info.Symbols[name]]: zero when absent. *)
Definition FindSymbol (info : ELFInfo) (name : string) : Z :=
  default 0 (Symbols info !! name).

(** The first element of a [range] over the map, taken in the order the
    run happens to use, that satisfies the loop's [if]. *)
Definition first_match (p : string -> bool) (order : list (string * Z))
  : option Z :=
  snd <$> find (fun kv => p (fst kv)) order.

Definition FindJNIOnLoad (info : ELFInfo) (order : list (string * Z)) : Z :=
  let addr := FindSymbol info "JNI_OnLoad" in
  if negb (addr =? 0) then addr
  else default 0 (first_match (fun name => EqualFold name "JNI_OnLoad") order).

Record candidate := mkCandidate {
  c_name : string;
  c_addr : Z;
  c_priority : Z
}.

Definition excluded (lower : string) : bool :=
  Contains lower "_ztv" || Contains lower "_zti" ||
  Contains lower "_zts" || Contains lower "__func" ||
  Contains lower "__clone" || Contains lower "__target" ||
  Contains lower "destroy" || Contains lower "deallocate".

(** One iteration of the candidate loop: the candidate appended, if any. *)
Definition classify (name : string) (addr : Z) : option candidate :=
  if addr =? 0 then None
  else
    let lower := ToLower name in
    if excluded lower then None
    else if Contains lower "regist_lua" then Some (mkCandidate name addr 0)
    else if Contains lower "appdelegate" && Contains lower "didfinish"
      then Some (mkCandidate name addr 1)
    else if Contains lower "ccgamemain" && Contains lower "didfinish"
      then Some (mkCandidate name addr 2)
    else if Contains lower "didfinishlaunching"
      then Some (mkCandidate name addr 3)
    else if Contains lower "cocos_android_app_init"
      then Some (mkCandidate name addr 4)
    else if Contains lower "cocos_main" then Some (mkCandidate name addr 5)
    else if HasPrefix lower "_zn4game" && Contains lower "initev"
      then Some (mkCandidate name addr 6)
    else if EqualFold name "JNI_OnLoad" then Some (mkCandidate name addr 7)
    else None.

Definition candidates (order : list (string * Z)) : list candidate :=
  omap (fun kv => classify (fst kv) (snd kv)) order.

(** [best := candidates[0]; for _, c := range candidates[1:] { if
    c.priority < best.priority { best = c } }]. *)
Definition pick_best (first : candidate) (rest : list candidate) : candidate :=
  foldl (fun best c => if c_priority c <? c_priority best then c else best)
        first rest.

(** The iteration orders of the four [range] loops over [info.Symbols]
    that one call of [FindEntryPoint] may run. *)
Record orders := mkOrders {
  ord_fold : list (string * Z);
  ord_substr : list (string * Z);
  ord_cand : list (string * Z);
  ord_jni : list (string * Z)
}.

Definition preferred_match (info : ELFInfo) (o : orders)
    (preferredEntry : string) : option Z :=
  if String.eqb preferredEntry "" then None
  else
    let addr := FindSymbol info preferredEntry in
    if negb (addr =? 0) then Some addr
    else
      match first_match (fun name => EqualFold name preferredEntry)
                        (ord_fold o) with
      | Some a => Some a
      | None =>
        let lower := ToLower preferredEntry in
        first_match (fun name => Contains (ToLower name) lower) (ord_substr o)
      end.

Definition FindEntryPoint (info : ELFInfo) (o : orders)
    (preferredEntry : string) : Z :=
  match preferred_match info o preferredEntry with
  | Some addr => addr
  | None =>
    match candidates (ord_cand o) with
    | first :: rest => c_addr (pick_best first rest)
    | [] =>
      let addr := FindJNIOnLoad info (ord_jni o) in
      if negb (addr =? 0) then addr else Entry info
    end
  end.

(** [FindSymbolsMatching]: the map the loop [for name, addr := range
    info.Symbols] builds when the range runs in [order]. *)
Definition FindSymbolsMatching (predicate : string -> bool)
    (order : list (string * Z)) : gmap string Z :=
  foldl (fun result kv =>
           if predicate (fst kv) then <[fst kv := snd kv]> result else result)
        ∅ order.

Definition FindSymbolsBySubstring (substr : string)
    (order : list (string * Z)) : gmap string Z :=
  FindSymbolsMatching
    (fun name => Contains (ToLower name) (ToLower substr)) order.

(** *** PLT symbols *)

Definition pltHeaderSize : Z := 32.
Definition pltEntrySize : Z := 16.

(** The two maps store the address under the name and, when the name has
    a version suffix, under the name without it. *)
Definition addPLTName (name : string) (pltAddr : Z) (m : gmap string Z)
  : gmap string Z :=
  let m := <[name := pltAddr]> m in
  match Index name "@@" with
  | Some idx => <[slice_to name idx := pltAddr]> m
  | None =>
    match Index name "@" with
    | Some idx => <[slice_to name idx := pltAddr]> m
    | None => m
    end
  end.

(** The body of the loop of [addPLTSymbols] for one RELA entry; the state
    is [symbols], [imports] and [entryIdx]. *)
Definition addPLTSymbol (pltBase : Z) (dynSyms : list Symbol)
    (acc : gmap string Z * gmap string Z * Z) (r : Rela)
  : gmap string Z * gmap string Z * Z :=
  let '(symbols, imports, entryIdx) := acc in
  let symIdx := Z.shiftr (r_info r) 32 in
  let arrayIdx := symIdx - 1 in
  if (arrayIdx <? 0) || (arrayIdx >=? Z.of_nat (length dynSyms))
  then (symbols, imports, entryIdx + 1)
  else
    match dynSyms !! Z.to_nat arrayIdx with
    | None => (symbols, imports, entryIdx + 1)
    | Some sym =>
      if String.eqb (sym_Name sym) "" then (symbols, imports, entryIdx + 1)
      else if sym_Value sym =? 0 then
        let pltAddr :=
          u64 (pltBase + pltHeaderSize + u64 (entryIdx * pltEntrySize)) in
        (addPLTName (sym_Name sym) pltAddr symbols,
         addPLTName (sym_Name sym) pltAddr imports, entryIdx + 1)
      else (symbols, imports, entryIdx + 1)
    end.

(** [addPLTSymbols]: [pltAddr] is the address of the [.plt] section,
    [relaData] the data of [.rela.plt], [dynSyms] the dynamic symbols;
    each is [None] when the file has none or reading it fails, and the
    maps are then left as they are. *)
Definition addPLTSymbols (pltAddr : option Z) (relaData : option (list Z))
    (dynSyms : option (list Symbol)) (relocOffset : Z)
    (symbols imports : gmap string Z) : gmap string Z * gmap string Z :=
  match pltAddr, relaData, dynSyms with
  | Some pltAddr, Some relaData, Some dynSyms =>
    let pltBase := u64 (pltAddr + relocOffset) in
    (foldl (addPLTSymbol pltBase dynSyms) (symbols, imports, 0)
           (relaEntries (length relaData) relaData)).1
  | _, _, _ => (symbols, imports)
  end.

(** An order a [range] over [m] can take: the entries of [m], each once. *)
Definition range_of (m : gmap string Z) (order : list (string * Z)) : Prop :=
  order ≡ₚ map_to_list m.

Definition orders_of (info : ELFInfo) (o : orders) : Prop :=
  range_of (Symbols info) (ord_fold o) /\
  range_of (Symbols info) (ord_substr o) /\
  range_of (Symbols info) (ord_cand o) /\
  range_of (Symbols info) (ord_jni o).

End Elf.

(** ** Package stubs: the registry and its install cycle *)

Module Stubs.
Import Emu GoStrings.







(** [matchPattern].  The slice [pattern[1:len(pattern)-1]] of the first
    branch is [pattern[1:0]] for the pattern ["*"], on which the Go
    runtime panics; [pattern[1:]] and [pattern[:len(pattern)-1]] are
    within bounds for every pattern that contains a star. *)
Definition matchPattern (name pattern : string) : outcome bool :=
  let n := String.length pattern in
  if Contains pattern "*" then
    if HasPrefix pattern "*" && HasSuffix pattern "*" then
      if (n - 1 <? 1)%nat then Panicked "slice bounds out of range [1:0]"
      else Done (Contains name (String.substring 1 (n - 1 - 1) pattern))
    else if HasPrefix pattern "*" then
      Done (HasSuffix name (String.substring 1 (n - 1) pattern))
    else if HasSuffix pattern "*" then
      Done (HasPrefix name (String.substring 0 (n - 1) pattern))
    else Done (String.eqb name pattern || Contains name pattern)
  else Done (String.eqb name pattern || Contains name pattern).













(** [ReturnFromStub]. *)
Definition ReturnFromStub (e : Emulator) : Emulator := SetPC e (LR e).

End Stubs.

(** ** Package cxxabi *)

Module Cxxabi.
Import Emu Stubs.

(** *** Static-initialisation guards; [guardState] is process-wide *)

Definition stubCxaGuardAcquire (guardState : gmap Z bool) (emu : Emulator)
  : gmap Z bool * Emulator * bool :=
  let guardPtr := X emu 0 in
  let initialized := default false (guardState !! guardPtr) in
  let emu := if initialized then SetX emu 0 0 else SetX emu 0 1 in
  (guardState, ReturnFromStub emu, false).

Definition stubCxaGuardRelease (guardState : gmap Z bool) (emu : Emulator)
  : gmap Z bool * Emulator * bool :=
  let guardPtr := X emu 0 in
  (<[guardPtr := true]> guardState, ReturnFromStub emu, false).

Definition stubCxaGuardAbort (guardState : gmap Z bool) (emu : Emulator)
  : gmap Z bool * Emulator * bool :=
  (guardState, ReturnFromStub emu, false).

Definition stubCxaAtexit (emu : Emulator) : Emulator * bool :=
  (ReturnFromStub (SetX emu 0 0), false).

Definition ClearGuardState : gmap Z bool := ∅.

(** *** The libc++ SSO string codec (string.go) *)

Definition SSOMaxLen : Z := 22.
Definition SSOObjSize : Z := 24.

(** [copy(dst[off:], src)]. *)
Definition copy_into (dst : list Z) (off : nat) (src : list Z) : list Z :=
  take off dst ++ take (length dst - off) src ++ drop (off + length src) dst.

Definition ReadSSOString (emu : Emulator) (addr : Z) : option (list Z) :=
  if (addr =? 0) || (addr <? 0x1000) then None
  else
    data ← MemRead emu addr SSOObjSize;
    if (length data <? Z.to_nat SSOObjSize)%nat then None
    else
      let isLong := Z.land (byte_at data 0) 1 =? 1 in
      if isLong then
        let length := le64_at data 8 in
        let dataPtr := le64_at data 16 in
        if (length >? 4096) || (dataPtr <? 0x1000) then None
        else MemRead emu dataPtr length
      else
        let length := Z.shiftr (byte_at data 0) 1 in
        if (length >? SSOMaxLen) || (length <? 0) then None
        else Some (take (Z.to_nat length) (drop 1 data)).

(** [WriteSSOString]: the emulator afterwards and whether the returned
    [error] is nil; the allocation may panic. *)
Definition WriteSSOString (emu : Emulator) (addr : Z) (str : list Z)
  : outcome (Emulator * bool) :=
  let strBytes := str in
  let strLen := Z.of_nat (length strBytes) in
  if strLen <=? SSOMaxLen then
    let ssoData := replicate (Z.to_nat SSOObjSize) 0 in
    let ssoData := <[0%nat := u8 (Z.shiftl strLen 1)]> ssoData in
    let ssoData := copy_into ssoData 1 strBytes in
    let ssoData :=
      if strLen <? SSOMaxLen then <[Z.to_nat (1 + strLen) := 0]> ssoData
      else ssoData in
    match MemWrite emu addr ssoData with
    | Some emu => Done (emu, true)
    | None => Done (emu, false)
    end
  else
    let bufSize := u64 (strLen + 1) in
    let bufSize := Z.land (u64 (bufSize + 15)) not15 in
    '(dataPtr, emu) ← Malloc emu bufSize;
    let dataWithNull := strBytes ++ [0] in
    match MemWrite emu dataPtr dataWithNull with
    | None => Done (emu, false)
    | Some emu =>
      let capacity := Z.lor bufSize 1 in
      let ssoData := put64 capacity ++ put64 strLen ++ put64 dataPtr in
      match MemWrite emu addr ssoData with
      | Some emu => Done (emu, true)
      | None => Done (emu, false)
      end
    end.

Definition GetSSODataPtr (emu : Emulator) (addr : Z) : Z :=
  if (addr =? 0) || (addr <? 0x1000) then 0
  else
    match MemRead emu addr SSOObjSize with
    | None => 0
    | Some data =>
      if Z.land (byte_at data 0) 1 =? 1 then le64_at data 16
      else u64 (addr + 1)
    end.

Definition GetSSOLength (emu : Emulator) (addr : Z) : Z :=
  if (addr =? 0) || (addr <? 0x1000) then 0
  else
    match MemRead emu addr SSOObjSize with
    | None => 0
    | Some data =>
      if Z.land (byte_at data 0) 1 =? 1 then le64_at data 8
      else Z.shiftr (byte_at data 0) 1
    end.

End Cxxabi.

(** ** UTF-8 decoding, as used by [for _, c := range s] *)

Module Utf8.

Definition RuneError : Z := 0xFFFD.

(** [utf8.DecodeRuneInString]: the rune and its width in bytes. *)
Definition DecodeRune (p : list Z) : Z * nat :=
  match p with
  | [] => (RuneError, 0%nat)
  | p0 :: rest =>
    if p0 <? 0x80 then (p0, 1%nat)
    else if (p0 <? 0xC2) || (0xF4 <? p0) then (RuneError, 1%nat)
    else
      let sz := if p0 <? 0xE0 then 2 else if p0 <? 0xF0 then 3 else 4 in
      let lo := if p0 =? 0xE0 then 0xA0 else if p0 =? 0xF0 then 0x90
                else 0x80 in
      let hi := if p0 =? 0xED then 0x9F else if p0 =? 0xF4 then 0x8F
                else 0xBF in
      match rest with
      | [] => (RuneError, 1%nat)
      | b1 :: rest1 =>
        if (Z.of_nat (length p) <? sz) then (RuneError, 1%nat)
        else if (b1 <? lo) || (hi <? b1) then (RuneError, 1%nat)
        else if sz <=? 2 then
          (Z.lor (Z.shiftl (Z.land p0 0x1F) 6) (Z.land b1 0x3F), 2%nat)
        else
          match rest1 with
          | [] => (RuneError, 1%nat)
          | b2 :: rest2 =>
            if (b2 <? 0x80) || (0xBF <? b2) then (RuneError, 1%nat)
            else if sz <=? 3 then
              (Z.lor (Z.lor (Z.shiftl (Z.land p0 0x0F) 12)
                            (Z.shiftl (Z.land b1 0x3F) 6))
                     (Z.land b2 0x3F), 3%nat)
            else
              match rest2 with
              | [] => (RuneError, 1%nat)
              | b3 :: _ =>
                if (b3 <? 0x80) || (0xBF <? b3) then (RuneError, 1%nat)
                else
                  (Z.lor (Z.lor (Z.lor (Z.shiftl (Z.land p0 0x07) 18)
                                       (Z.shiftl (Z.land b1 0x3F) 12))
                                (Z.shiftl (Z.land b2 0x3F) 6))
                         (Z.land b3 0x3F), 4%nat)
              end
          end
      end
  end.

(** The runes a [range] over the string visits, in order. *)
Fixpoint runes_fuel (fuel : nat) (s : list Z) : list Z :=
  match fuel, s with
  | S fuel, _ :: _ =>
    let '(r, w) := DecodeRune s in r :: runes_fuel fuel (drop w s)
  | _, _ => []
  end.

Definition runes (s : list Z) : list Z := runes_fuel (length s) s.

End Utf8.

(** ** Package setters: the capture hooks *)

Module Setters.
Import Emu GoStrings Stubs.

Record CapturedKey := mkCapturedKey {
  Value : list Z;
  Source : string;
  Address : Z;
  KeyType : string;
  RiskLevel : string
}.

(** [captureKey]: append to the process-wide list.  The log line and the
    [OnKeyCapture] callback observe the key and do not touch the list. *)
Definition captureKey (capturedKeys : list CapturedKey) (key : CapturedKey)
  : list CapturedKey :=
  capturedKeys ++ [key].

Definition ClearCapturedKeys : list CapturedKey := [].

Definition CaptureKeyDirect (capturedKeys : list CapturedKey)
    (value : list Z) (source : string) (address : Z) : list CapturedKey :=
  let sourceLower := ToLower source in
  let keyType :=
    if Contains sourceLower "xxtea" || Contains sourceLower "xtea"
    then "xxtea"
    else if Contains sourceLower "signature" then "signature"
    else if Contains sourceLower "crypto" || Contains sourceLower "aes"
    then "crypto"
    else "unknown" in
  captureKey capturedKeys (mkCapturedKey value source address keyType "critical").

(** [isPrintable]: the loop returns at the first rune outside 0x20..0x7e. *)
Definition isPrintable (s : list Z) : bool :=
  if (length s =? 0)%nat then false
  else forallb (fun c => negb ((c <? 0x20) || (c >? 0x7e))) (Utf8.runes s).

(** [isPrintableASCII] of this package (not called by the hooks). *)
Definition isPrintableASCII (s : list Z) : bool :=
  forallb (fun c => negb ((c <? 32) || (c >? 126))) (Utf8.runes s)
  && (0 <? length s)%nat.

Definition nonempty (s : list Z) : bool := (0 <? length s)%nat.

(** [readStdString]: [None] is the [("", false)] result. *)
Definition readStdString (emu : Emulator) (addr : Z) : option (list Z) :=
  if addr =? 0 then None
  else
    data ← MemRead emu addr 24;
    if (length data <? 24)%nat then None
    else
      let ptr := le64_at data 0 in
      let heap_try :=
        if (ptr >=? 0x90000000) && (ptr <? 0xA0000000) then
          let str := MemReadString_ emu ptr 256 in
          if nonempty str && isPrintable str then Some str else None
        else None in
      match heap_try with
      | Some str => Some str
      | None =>
        if Z.land (byte_at data 0) 1 =? 0 then
          let length := Z.shiftr (byte_at data 0) 1 in
          if (length >? 0) && (length <=? 22) then
            let result := take (Z.to_nat length) (drop 1 data) in
            if isPrintable result then Some result else None
          else None
        else
          let length := le64_at data 8 in
          let dataPtr := le64_at data 16 in
          if (length >? 0) && (length <=? 256) && negb (dataPtr =? 0) then
            match MemRead emu dataPtr length with
            | Some strData =>
              if isPrintable strData then Some strData else None
            | None => None
            end
          else None
      end.

Definition isLuaSetterSymbol (name : string) : bool :=
  let lower := ToLower name in
  (Contains lower "setxxteakey" || Contains lower "setxxtea")
  && negb (Contains name "basic_string").

(** [key = str] when the guard of the [if] holds; [key] is unchanged
    otherwise. *)
Definition accept (key str : list Z) : list Z :=
  if nonempty str && isPrintable str then str else key.

Definition is_empty (key : list Z) : bool := (length key =? 0)%nat.

(** The fallback loops over registers: the first register that yields a
    printable string. *)
Fixpoint scan_regs (skip : Z -> bool) (emu : Emulator) (rs : list Z)
  : list Z :=
  match rs with
  | [] => []
  | reg :: rs =>
    let ptr := X emu reg in
    if skip ptr then scan_regs skip emu rs
    else
      let str := MemReadString_ emu ptr 256 in
      if nonempty str && isPrintable str then str
      else scan_regs skip emu rs
  end.

Definition makeXXTeaKeyHook (funcName : string)
    (capturedKeys : list CapturedKey) (emu : Emulator)
  : list CapturedKey * Emulator * bool :=
  let key : list Z := [] in
  let x0 := X emu 0 in
  let x1 := X emu 1 in
  let x3 := X emu 3 in
  let x4 := X emu 4 in
  let key :=
    if Contains funcName "basic_string" || Contains funcName "jsb_set" then
      match readStdString emu x0 with
      | Some str => accept key str
      | None => key
      end
    else key in
  let key :=
    if is_empty key && isLuaSetterSymbol funcName then
      if (x1 <? 256) && (x1 >? 0)
      then accept key (MemReadString_ emu x0 128)
      else accept key (MemReadString_ emu x1 128)
    else key in
  let key :=
    if is_empty key then
      scan_regs (fun ptr => (ptr =? 0) || (ptr <? 0x1000)
                            || (ptr >? 0x7000000000000000))
                emu [0; 1; 2]
    else key in
  let capturedKeys :=
    if negb (is_empty key) then
      let capturedKeys :=
        captureKey capturedKeys
          (mkCapturedKey key funcName (PC emu) "xxtea" "critical") in
      if (x3 >? 0x1000) && (x4 >? 0) && (x4 <? 256) then
        let sign := MemReadString_ emu x3 128 in
        if nonempty sign && isPrintable sign then
          captureKey capturedKeys
            (mkCapturedKey sign (funcName +:+ "[signature]") (PC emu)
                           "signature" "low")
        else capturedKeys
      else capturedKeys
    else capturedKeys in
  (capturedKeys, ReturnFromStub emu, false).

Definition makeGenericKeyHook (funcName keyType : string)
    (capturedKeys : list CapturedKey) (emu : Emulator)
  : list CapturedKey * Emulator * bool :=
  let key :=
    scan_regs (fun keyPtr => (keyPtr =? 0) || (keyPtr >? 0x7000000000000000))
              emu [0; 1; 2] in
  let capturedKeys :=
    if nonempty key then
      captureKey capturedKeys
        (mkCapturedKey key funcName (PC emu) keyType "high")
    else capturedKeys in
  (capturedKeys, ReturnFromStub emu, false).

Definition makeStdStringSetterHook (funcName : string)
    (capturedKeys : list CapturedKey) (emu : Emulator)
  : list CapturedKey * Emulator * bool :=
  let x1 := X emu 1 in
  let x2 := X emu 2 in
  let key : list Z :=
    match readStdString emu x1 with
    | Some str => accept [] str
    | None => []
    end in
  let sign : list Z :=
    match readStdString emu x2 with
    | Some str => accept [] str
    | None => []
    end in
  let key :=
    if is_empty key then
      if (x1 >? 0x1000) && (x1 <? 0x7000000000000000)
      then accept key (MemReadString_ emu x1 128)
      else key
    else key in
  let capturedKeys :=
    if negb (is_empty key) then
      let capturedKeys :=
        captureKey capturedKeys
          (mkCapturedKey key funcName (PC emu) "xxtea" "critical") in
      if negb (is_empty sign) then
        captureKey capturedKeys
          (mkCapturedKey sign (funcName +:+ "[signature]") (PC emu)
                         "signature" "low")
      else capturedKeys
    else capturedKeys in
  (capturedKeys, ReturnFromStub emu, false).

End Setters.

(** ** The driver (cmd/galago) *)

Module Driver.
Import Emu GoStrings Stubs Setters.

Definition setterPatterns : list string :=
  ["xxteakey"; "cryptokey"; "encryptionkey"; "decryptionkey"; "secretkey"].

Definition isSetterSymbol (symName : string) (patterns : list string) : bool :=
  if String.eqb symName "" then false
  else existsb (Contains (ToLower symName)) patterns.

(** Modelled from the spec: [isPrintableKey] is called by the vtable-stub
    hook of the driver and defined outside the files at hand.  Sections
    4.8 and 7 of the spec: only printable-ASCII (0x20..0x7E), non-empty
    strings may be captured; anything else is silently dropped. *)
Definition isPrintableKey (key : list Z) : bool :=
  (0 <? length key)%nat
  && forallb (fun c => (0x20 <=? c) && (c <=? 0x7E)) key.

(** The nested loops over [info.VTables.Tables] and [tbl.Slots]; [slots]
    lists the slots in the order the loops visit them. *)
Definition collectSetterSlots (slots : list SlotInfo) : gmap Z SlotInfo :=
  foldl (fun m slot =>
           if (SlotIndex slot >=? 0) && isSetterSymbol (SymName slot) setterPatterns
           then <[u64 (SlotIndex slot) := slot]> m
           else m)
        ∅ slots.

(** The closure installed at [vtable_stub[slotIdx]]. *)
Definition driverVtableHook (setterSlots : gmap Z SlotInfo)
    (slotIdx mockObj : Z) (hitCount : Z) (capturedKeys : list CapturedKey)
    (e : Emulator) : Z * list CapturedKey * Emulator * bool :=
  let hitCount := hitCount + 1 in
  let capturedKeys :=
    match setterSlots !! slotIdx with
    | Some slot =>
      let x1 := X e 1 in
      let x2 := X e 2 in
      let x3 := X e 3 in
      let x4 := X e 4 in
      let capturedKeys :=
        if (x2 >? 0) && (x2 <? 256) && (x1 >? 0x1000) then
          match MemRead e x1 x2 with
          | Some keyBytes =>
            let key := keyBytes in
            if isPrintableKey key then
              CaptureKeyDirect capturedKeys key
                ("vtable[" +:+ pretty slotIdx +:+ "]->" +:+ SymName slot)
                (PC e)
            else capturedKeys
          | None => capturedKeys
          end
        else capturedKeys in
      if (x4 >? 0) && (x4 <? 256) && (x3 >? 0x1000) then
        match MemRead e x3 x4 with
        | Some signBytes =>
          let sign := signBytes in
          if isPrintableKey sign then
            CaptureKeyDirect capturedKeys sign
              ("vtable[" +:+ pretty slotIdx +:+ "]->" +:+ SymName slot
               +:+ "[signature]")
              (PC e)
          else capturedKeys
        | None => capturedKeys
        end
      else capturedKeys
    | None => capturedKeys
    end in
  (hitCount, capturedKeys, SetX e 0 mockObj, false).

Definition installVtableStubHooks (emu : Emulator) (slots : list SlotInfo)
  : Emulator :=
  let vtableBase := GetVtableStubs in
  let mockObj := GetMockObject in
  let setterSlots := collectSetterSlots slots in
  foldl (fun emu i =>
           let stubAddr := vtableBase + i * 4 in
           let slotIdx := i in
           HookAddress emu stubAddr (DriverVtableHook setterSlots slotIdx mockObj))
        emu (seqZ 0 VtableStubCount).

End Driver.

(** ** Hook dispatch ([setupHooks]) *)

Module Dispatch.
Import Emu Stubs Setters.

(** The process-wide variables the hooks share. *)
Record Process := mkProcess {
  capturedKeys : list CapturedKey;
  guardState : gmap Z bool;
  hookHitCount : Z
}.

Section WithOtherStubs.

(** The registered stub functions this development does not interpret. *)
Variable other : string -> Process -> Emulator -> outcome (Process * Emulator * bool).

Definition callStub (f : HookFunc) (p : Process) (e : Emulator)
  : outcome (Process * Emulator * bool) :=
  match f with
  | stubCxaGuardAcquire =>
    let '(g, e, stop) := Cxxabi.stubCxaGuardAcquire (guardState p) e in
    Done (mkProcess (capturedKeys p) g (hookHitCount p), e, stop)
  | stubCxaGuardRelease =>
    let '(g, e, stop) := Cxxabi.stubCxaGuardRelease (guardState p) e in
    Done (mkProcess (capturedKeys p) g (hookHitCount p), e, stop)
  | stubCxaGuardAbort =>
    let '(g, e, stop) := Cxxabi.stubCxaGuardAbort (guardState p) e in
    Done (mkProcess (capturedKeys p) g (hookHitCount p), e, stop)
  | stubCxaAtexit =>
    let '(e, stop) := Cxxabi.stubCxaAtexit e in Done (p, e, stop)
  | stubOther fn => other fn p e
  end.

Definition with_keys (p : Process) (ks : list CapturedKey) : Process :=
  mkProcess ks (guardState p) (hookHitCount p).

(** Calling the closure stored in [addrHooks]. *)
Definition callHook (hook : AddressHookFunc) (p : Process) (e : Emulator)
  : outcome (Process * Emulator * bool) :=
  match hook with
  | VtableStubHook =>
    '(e, stop) ← makeVtableStubHook e; Done (p, e, stop)
  | CallbackStubHook =>
    '(e, stop) ← makeCallbackStubHook e; Done (p, e, stop)
  | MockObj2CallHook mockObj =>
    '(e, stop) ← makeMockObj2CallHook mockObj e; Done (p, e, stop)
  | InstalledStub stub => callStub (Hook stub) p e
  | FallbackStub _ => Done (p, ReturnFromStub (SetX e 0 0), false)
  | XXTeaKeyHook funcName =>
    let '(ks, e, stop) := makeXXTeaKeyHook funcName (capturedKeys p) e in
    Done (with_keys p ks, e, stop)
  | GenericKeyHook funcName keyType =>
    let '(ks, e, stop) :=
      makeGenericKeyHook funcName keyType (capturedKeys p) e in
    Done (with_keys p ks, e, stop)
  | StdStringSetterHook funcName =>
    let '(ks, e, stop) := makeStdStringSetterHook funcName (capturedKeys p) e in
    Done (with_keys p ks, e, stop)
  | DriverVtableHook setterSlots slotIdx mockObj =>
    let '(n, ks, e, stop) :=
      Driver.driverVtableHook setterSlots slotIdx mockObj (hookHitCount p)
                              (capturedKeys p) e in
    Done (mkProcess ks (guardState p) n, e, stop)
  | SentinelHook => Done (p, e, true)
  end.

(** The code hook of [setupHooks] when execution reaches [addr]: at most
    one address hook runs, the one stored under [addr]. *)
Definition codeHook (p : Process) (e : Emulator) (addr : Z)
  : outcome (Process * Emulator) :=
  if stopped e then Done (p, e)
  else
    match addrHooks e !! addr with
    | Some hook =>
      '(p, e, stop) ← callHook hook p e;
      if stop : bool then Done (p, with_stopped true e) else Done (p, e)
    | None => Done (p, e)
    end.

End WithOtherStubs.

End Dispatch.

(** ** Observations used by the statements below *)

Module Obs.
Import Emu Stubs Setters Dispatch.

(** The allocator's invariant. *)
Definition heap_inv (e : Emulator) : Prop :=
  HeapBase <= heapPtr e < HeapBase + HeapSize /\ heapPtr e mod 16 = 0.

(** Two allocations in a row: the two addresses returned. *)
Definition malloc_twice (e : Emulator) (size1 size2 : Z) : outcome (Z * Z) :=
  '(a1, e) ← Malloc e size1;
  '(a2, _) ← Malloc e size2;
  Done (a1, a2).

(** An allocation followed by a call of the vtable-stub hook with [X8 = x8]:
    the value the hook leaves in X0. *)
Definition malloc_then_vtable_stub (e : Emulator) (size x8 : Z) : outcome Z :=
  '(_, e) ← Malloc e size;
  '(e, _) ← makeVtableStubHook (SetX e 8 x8);
  Done (X e 0).

(** A guest call of one of the guard stubs with [X0 = g]. *)
Inductive guard_call := Acquire (g : Z) | Release (g : Z) | Abort (g : Z).

Definition guard_step (st : gmap Z bool * Emulator) (c : guard_call)
  : gmap Z bool * Emulator :=
  let '(gs, e) := st in
  match c with
  | Acquire g => (Cxxabi.stubCxaGuardAcquire gs (SetX e 0 g)).1
  | Release g => (Cxxabi.stubCxaGuardRelease gs (SetX e 0 g)).1
  | Abort g => (Cxxabi.stubCxaGuardAbort gs (SetX e 0 g)).1
  end.

Definition guard_run (st : gmap Z bool * Emulator) (cs : list guard_call)
  : gmap Z bool * Emulator :=
  foldl guard_step st cs.

(** The value [__cxa_guard_acquire(g)] returns in X0 after the calls [cs]. *)
Definition acquire_result (cs : list guard_call) (e : Emulator) (g : Z) : Z :=
  X (guard_step (guard_run (Cxxabi.ClearGuardState, e) cs) (Acquire g)).2 0.

Definition releases (g : Z) (c : guard_call) : bool :=
  match c with
  | Release g' => g' =? g
  | _ => false
  end.

(** The qword at [addr], if mapped. *)
Definition qword (e : Emulator) (addr : Z) : option Z := MemReadU64 e addr.

(** A RELA entry of type [relType] against symbol index [symIdx]. *)
Definition rela (offset symIdx relType addend : Z) : Elf.Rela :=
  Elf.mkRela offset (Z.lor (Z.shiftl symIdx 32) relType) addend.

(** The addresses of the mock-object graph (section 3.4 of the spec). *)
Definition mock_vtable : Z := MockObjBase + 0x1010.
Definition mock_obj : Z := MockObjBase + 0x2000.
Definition mock_obj2 : Z := MockObjBase + 0x3000.

(** The properties of section 8.1(1) of the spec, on an emulator. *)
Definition address_map_stable (e : Emulator) : Prop :=
  qword e (TLSBase + 0x28) = Some 0xDEADBEEFDEADBEEF /\
  qword e (LibcBase + CtypePtrOffset) = Some (LibcBase + CtypeTableOffset + 1) /\
  qword e mock_obj = Some mock_vtable /\
  qword e mock_obj2 = Some mock_vtable /\
  Forall (fun i => qword e (mock_obj + i * 8) = Some mock_obj2) (seqZ 1 255).

(** The reference definition of the [_ctype_] table (section 3.2 of the
    spec): one predicate per class bit. *)
Definition between (lo hi c : Z) : bool := (lo <=? c) && (c <=? hi).

Definition is_upper (c : Z) : bool := between 65 90 c.        (* 'A'..'Z' *)
Definition is_lower (c : Z) : bool := between 97 122 c.       (* 'a'..'z' *)
Definition is_digit (c : Z) : bool := between 48 57 c.        (* '0'..'9' *)
Definition is_hex (c : Z) : bool :=
  between 65 70 c || between 97 102 c || is_digit c.
Definition is_blank (c : Z) : bool := (c =? 32) || (c =? 9).
Definition is_space (c : Z) : bool :=
  is_blank c || (c =? 10) || (c =? 13) || (c =? 12) || (c =? 11).
Definition is_other_control (c : Z) : bool :=
  ((c <? 0x20) || (c =? 0x7F)) && negb (is_space c).
Definition is_punct (c : Z) : bool :=
  between 0x21 0x2F c || between 0x3A 0x40 c ||
  between 0x5B 0x60 c || between 0x7B 0x7E c.

Definition flag (bit : Z) (cond : bool) : Z := if cond then bit else 0.

Definition ctype_ref (c : Z) : Z :=
  Z.lor (flag 0x01 (is_upper c))
  (Z.lor (flag 0x02 (is_lower c))
  (Z.lor (flag 0x04 (is_digit c))
  (Z.lor (flag 0x08 (is_space c))
  (Z.lor (flag 0x10 (is_punct c))
  (Z.lor (flag 0x20 (is_other_control c))
  (Z.lor (flag 0x40 (is_blank c))
         (flag 0x80 (is_hex c)))))))).

(** The entry for character value [c] agrees with the reference, bit by
    bit, and has no bit above bit 7. *)
Definition ctype_entry_ok (c : Z) : Prop :=
  ctypeTable !! Z.to_nat (c + 1) = Some (ctype_ref c) /\
  0 <= ctype_ref c < 256 /\
  Z.testbit (ctype_ref c) 0 = is_upper c /\
  Z.testbit (ctype_ref c) 1 = is_lower c /\
  Z.testbit (ctype_ref c) 2 = is_digit c /\
  Z.testbit (ctype_ref c) 3 = is_space c /\
  Z.testbit (ctype_ref c) 4 = is_punct c /\
  Z.testbit (ctype_ref c) 5 = is_other_control c /\
  Z.testbit (ctype_ref c) 6 = is_blank c /\
  Z.testbit (ctype_ref c) 7 = is_hex c.

(** Non-empty printable ASCII (section 3.8 of the spec). *)
Definition printable (v : list Z) : Prop :=
  v <> [] /\ Forall (fun c => 0x20 <= c <= 0x7E) v.

Definition keys_printable (ks : list CapturedKey) : Prop :=
  Forall (fun k => printable (Value k)) ks.

(** The value of a local [key] variable: still empty, or accepted. *)
Definition ok_or_empty (key : list Z) : Prop := key = [] \/ printable key.

(** The hooks that capture keys: the three setter hooks and the hook the
    driver installs at the vtable stubs. *)
Inductive capture_hook : AddressHookFunc -> Prop :=
| capture_xxtea funcName : capture_hook (XXTeaKeyHook funcName)
| capture_generic funcName keyType :
    capture_hook (GenericKeyHook funcName keyType)
| capture_std_string funcName : capture_hook (StdStringSetterHook funcName)
| capture_driver setterSlots slotIdx mockObj :
    capture_hook (DriverVtableHook setterSlots slotIdx mockObj).

(** The captured-keys list after a hook has run. *)
Definition keys_after
    (other : string -> Process -> Emulator -> outcome (Process * Emulator * bool))
    (hook : AddressHookFunc) (p : Process) (e : Emulator)
  : list CapturedKey :=
  match callHook other hook p e with
  | Done (p', _, _) => capturedKeys p'
  | Panicked _ => capturedKeys p
  end.

(** The lists the process can hold: cleared by the driver, then extended
    by capture hooks fired on whatever state the guest has reached. *)
Inductive captured
    (other : string -> Process -> Emulator -> outcome (Process * Emulator * bool))
  : list CapturedKey -> Prop :=
| captured_clear : captured other ClearCapturedKeys
| captured_hook ks hook guards hits e :
    captured other ks -> capture_hook hook ->
    captured other (keys_after other hook (mkProcess ks guards hits) e).

(** The buffer size [WriteSSOString] requests for a long string of [n]
    bytes: [n + 1] rounded up to a multiple of 16. *)
Definition sso_buf_size (n : Z) : Z := 16 * ((n + 16) / 16).

(** The 24 bytes [WriteSSOString] builds for a short string. *)
Definition short_object (s : list Z) : list Z :=
  let strLen := Z.of_nat (length s) in
  let ssoData :=
    Cxxabi.copy_into (<[0%nat := u8 (Z.shiftl strLen 1)]> (replicate 24 0)) 1 s in
  if strLen <? Cxxabi.SSOMaxLen then <[Z.to_nat (1 + strLen) := 0]> ssoData
  else ssoData.

(** The 24 bytes [WriteSSOString] builds for a long string. *)
Definition long_object (bufSize strLen dataPtr : Z) : list Z :=
  put64 (Z.lor bufSize 1) ++ put64 strLen ++ put64 dataPtr.

(** Where a [std::string] object of [n] characters can be written and read
    back: at or above 0x1000 (the reader's guard), on 24 mapped bytes, and
    for a long string with the allocator in order, room for the character
    buffer, the buffer mapped, and the object outside the buffer the
    allocator is about to hand out. *)
Definition sso_slot_ok (e : Emulator) (addr n : Z) : Prop :=
  0x1000 <= addr /\ mapped_range (regions e) addr 24 = true /\
  (22 < n ->
   heap_inv e /\ heapPtr e + sso_buf_size n < HeapBase + HeapSize /\
   mapped_range (regions e) (heapPtr e) (n + 1) = true /\
   (addr + 24 <= heapPtr e \/ heapPtr e + n + 1 <= addr)).

(** [c] is the first candidate of [cs] with the least priority number. *)
Definition least_first (c : Elf.candidate) (cs : list Elf.candidate) : Prop :=
  exists l1 l2, cs = l1 ++ c :: l2 /\
    (forall c', c' ∈ l1 -> Elf.c_priority c < Elf.c_priority c') /\
    (forall c', c' ∈ l2 -> Elf.c_priority c <= Elf.c_priority c').

(** The names on which the lowering of the model is that of the code. *)
Definition ascii_symbols (info : Elf.ELFInfo) : Prop :=
  forall name addr,
    Elf.Symbols info !! name = Some addr -> GoStrings.is_ascii name = true.

(** The pattern table of section 4.11 of the spec, on the lowered name:
    each row with its priority number. *)
Definition pattern_table : list ((string -> bool) * Z) :=
  [ (fun l => GoStrings.Contains l "regist_lua", 0);
    (fun l => GoStrings.Contains l "appdelegate"
              && GoStrings.Contains l "didfinish", 1);
    (fun l => GoStrings.Contains l "ccgamemain"
              && GoStrings.Contains l "didfinish", 2);
    (fun l => GoStrings.Contains l "didfinishlaunching", 3);
    (fun l => GoStrings.Contains l "cocos_android_app_init", 4);
    (fun l => GoStrings.Contains l "cocos_main", 5);
    (fun l => GoStrings.HasPrefix l "_zn4game"
              && GoStrings.Contains l "initev", 6);
    (fun l => String.eqb l "jni_onload", 7) ].

(** The patterns of section 4.11 that exclude a symbol. *)
Definition excluded_patterns : list string :=
  [ "_ztv"; "_zti"; "_zts"; "__func"; "__clone"; "__target"; "destroy";
    "deallocate" ]%string.

(** The priority number of a symbol name per the table: that of the first
    row it matches, none when it is excluded or matches no row. *)
Definition table_priority (name : string) : option Z :=
  let lower := GoStrings.ToLower name in
  if existsb (GoStrings.Contains lower) excluded_patterns then None
  else snd <$> find (fun row => row.1 lower) pattern_table.

(** A symbol with a non-null address and a priority number that no other
    such symbol of the table undercuts. *)
Definition least_symbol (info : Elf.ELFInfo) (kv : string * Z) : bool :=
  match table_priority kv.1 with
  | Some p =>
    negb (kv.2 =? 0) &&
    forallb (fun kv' => match table_priority kv'.1 with
                        | Some p' => (kv'.2 =? 0) || (p <=? p')
                        | None => true
                        end)
            (map_to_list (Elf.Symbols info))
  | None => false
  end.

(** The stage of section 4.11 that decides for a hint: the exact name
    when it has a non-null address, else the names equal to the hint up
    to case when there is one, else the names that contain the hint up to
    case when there is one, else (and for the empty hint) the priority
    table. *)
Inductive Stage := ByName | ByFold | BySubstring | ByPriority.

Definition stage_of (info : Elf.ELFInfo) (preferredEntry : string) : Stage :=
  if String.eqb preferredEntry "" then ByPriority
  else if negb (Elf.FindSymbol info preferredEntry =? 0) then ByName
  else if existsb (fun kv => GoStrings.EqualFold kv.1 preferredEntry)
                  (map_to_list (Elf.Symbols info)) then ByFold
  else if existsb (fun kv => GoStrings.Contains
                               (GoStrings.ToLower kv.1)
                               (GoStrings.ToLower preferredEntry))
                  (map_to_list (Elf.Symbols info)) then BySubstring
  else ByPriority.

(** The symbols the deciding stage accepts. *)
Definition decides (info : Elf.ELFInfo) (preferredEntry : string)
    (kv : string * Z) : bool :=
  match stage_of info preferredEntry with
  | ByName => String.eqb kv.1 preferredEntry
  | ByFold => GoStrings.EqualFold kv.1 preferredEntry
  | BySubstring =>
    GoStrings.Contains (GoStrings.ToLower kv.1)
                       (GoStrings.ToLower preferredEntry)
  | ByPriority => least_symbol info kv
  end.

(** The range whose order the deciding stage follows. *)
Definition stage_order (info : Elf.ELFInfo) (preferredEntry : string)
    (o : Elf.orders) : list (string * Z) :=
  match stage_of info preferredEntry with
  | ByName | ByFold => Elf.ord_fold o
  | BySubstring => Elf.ord_substr o
  | ByPriority => Elf.ord_cand o
  end.

(** The address of the first symbol, in the order of the run, that the
    deciding stage accepts; the ELF entry when it accepts none. *)
Definition selected (info : Elf.ELFInfo) (preferredEntry : string)
    (o : Elf.orders) : Z :=
  match find (decides info preferredEntry)
             (stage_order info preferredEntry o) with
  | Some kv => kv.2
  | None => Elf.Entry info
  end.

(** All symbols the deciding stage accepts have the same address. *)
Definition unambiguous (info : Elf.ELFInfo) (preferredEntry : string)
  : Prop :=
  forall n1 a1 n2 a2,
    Elf.Symbols info !! n1 = Some a1 -> Elf.Symbols info !! n2 = Some a2 ->
    decides info preferredEntry (n1, a1) = true ->
    decides info preferredEntry (n2, a2) = true -> a1 = a2.

(** One [range] order used by all four loops of a call. *)
Definition same_order (l : list (string * Z)) : Elf.orders :=
  Elf.mkOrders l l l l.

(** A symbol table with two exported [regist_lua] functions, and the two
    orders in which a [range] over it can run. *)
Definition lua_pair : Elf.ELFInfo :=
  Elf.mkELFInfo 0x500
    (<["regist_lua_a" := 0x1000]> (<["regist_lua_b" := 0x2000]> ∅)) ∅.

Definition lua_ab : Elf.orders :=
  same_order [("regist_lua_a", 0x1000); ("regist_lua_b", 0x2000)].

Definition lua_ba : Elf.orders :=
  same_order [("regist_lua_b", 0x2000); ("regist_lua_a", 0x1000)].

(** A symbol table with one [regist_lua] function and [JNI_OnLoad]. *)
Definition lua_jni : Elf.ELFInfo :=
  Elf.mkELFInfo 0x500
    (<["regist_lua_a" := 0x1000]> (<["JNI_OnLoad" := 0x3000]> ∅)) ∅.

Definition lua_then_jni : Elf.orders :=
  same_order [("regist_lua_a", 0x1000); ("JNI_OnLoad", 0x3000)].

Definition jni_then_lua : Elf.orders :=
  same_order [("JNI_OnLoad", 0x3000); ("regist_lua_a", 0x1000)].

(** A symbol table with two names that differ in case only. *)
Definition init_pair : Elf.ELFInfo :=
  Elf.mkELFInfo 0x500 (<["Init" := 0x1000]> (<["INIT" := 0x2000]> ∅)) ∅.

Definition init_ab : Elf.orders :=
  same_order [("Init", 0x1000); ("INIT", 0x2000)].

Definition init_ba : Elf.orders :=
  same_order [("INIT", 0x2000); ("Init", 0x1000)].

(** The empty copy-on-write string the construction-time hooks build:
    the object at [obj] points 24 bytes past the [_Rep] header at [rep],
    the header holds length 0, capacity 15 and reference count 0, and the
    16 data bytes are zero. *)
Definition cow_empty_at (e : Emulator) (obj rep : Z) : Prop :=
  qword e obj = Some (rep + 24) /\
  qword e rep = Some 0 /\
  qword e (rep + 8) = Some 15 /\
  MemRead e (rep + 16) 8 = Some (replicate 8 0) /\
  MemRead e (rep + 24) 16 = Some (replicate 16 0).

(** The 24 bytes of a RELA entry. *)
Definition encodeRela (r : Elf.Rela) : list Z :=
  PutUint64 (Elf.r_offset r) ++ PutUint64 (Elf.r_info r)
  ++ PutUint64 (Elf.r_addend r).

(** The entry with its three fields reduced modulo 2^64. *)
Definition wrapRela (r : Elf.Rela) : Elf.Rela :=
  Elf.mkRela (u64 (Elf.r_offset r)) (u64 (Elf.r_info r))
             (u64 (Elf.r_addend r)).

(** The address of the PLT entry number [k]. *)
Definition plt_slot (pltBase k : Z) : Z :=
  u64 (pltBase + Elf.pltHeaderSize + u64 (k * Elf.pltEntrySize)).

(** The 8 bytes a relocation entry targets. *)
Definition reloc_target (relocOffset : Z) (r : Elf.Rela) : Z :=
  u64 (Elf.r_offset r + relocOffset).

(** Everything but the memory is the same in both states. *)
Definition same_but_memory (e e' : Emulator) : Prop :=
  regs e' = regs e /\ heapPtr e' = heapPtr e /\ regions e' = regions e /\
  addrHooks e' = addrHooks e /\ stopped e' = stopped e /\
  emptyStringData e' = emptyStringData e.

(** Everything but the hook map is the same in both states. *)
Definition same_but_hooks (e e' : Emulator) : Prop :=
  mem e' = mem e /\ regions e' = regions e /\ regs e' = regs e /\
  heapPtr e' = heapPtr e /\ stopped e' = stopped e.













End Obs.

(** * Properties *)

(** ** Bytes and memory *)

Section MemoryFacts.
Import Emu Stubs.

Lemma all_mapped_spec rs n a :
  all_mapped rs n a = true <->
  forall k, 0 <= k < Z.of_nat n -> is_mapped rs (a + k) = true.
Proof.
  revert a; induction n as [|n IH]; intros a; simpl.
  - split; [intros _ k Hk; lia | reflexivity].
  - destruct (is_mapped rs a) eqn:Ha.
    + rewrite IH. split.
      * intros H k Hk. destruct (decide (k = 0)) as [->|Hne].
        -- now rewrite Z.add_0_r.
        -- replace (a + k) with (a + 1 + (k - 1)) by lia. apply H. lia.
      * intros H k Hk. replace (a + 1 + k) with (a + (k + 1)) by lia.
        apply H. lia.
    + split; [discriminate|]. intros H.
      specialize (H 0 ltac:(lia)). rewrite Z.add_0_r in H. congruence.
Qed.

Lemma mapped_range_sub rs a n b k :
  mapped_range rs a n = true -> a <= b -> b + k <= a + n ->
  mapped_range rs b k = true.
Proof.
  unfold mapped_range. rewrite !all_mapped_spec. intros H Hab Hbk j Hj.
  replace (b + j) with (a + (b - a + j)) by lia. apply H. lia.
Qed.

Lemma length_read_from m n a : length (read_from m n a) = n.
Proof. revert a; induction n; intros; simpl; auto. Qed.

Lemma read_from_lookup m n a (i : nat) :
  (i < n)%nat -> read_from m n a !! i = Some (m (a + Z.of_nat i)).
Proof.
  revert a i; induction n as [|n IH]; intros a i Hi; [lia|].
  destruct i as [|i]; simpl.
  - now rewrite Z.add_0_r.
  - rewrite IH by lia. do 2 f_equal. lia.
Qed.

Lemma read_from_ext m1 m2 n a :
  (forall k, 0 <= k < Z.of_nat n -> m1 (a + k) = m2 (a + k)) ->
  read_from m1 n a = read_from m2 n a.
Proof.
  revert a; induction n as [|n IH]; intros a H; simpl; [reflexivity|].
  f_equal.
  - specialize (H 0 ltac:(lia)). now rewrite Z.add_0_r in H.
  - apply IH. intros k Hk. replace (a + 1 + k) with (a + (k + 1)) by lia.
    apply H. lia.
Qed.

Lemma read_from_write_same m a data :
  read_from (write_bytes m a data) (length data) a = data.
Proof.
  apply list_eq. intros i.
  destruct (decide (i < length data)%nat) as [Hi|Hi].
  - rewrite read_from_lookup by assumption. unfold write_bytes.
    replace ((a <=? a + Z.of_nat i) && (a + Z.of_nat i <? a + Z.of_nat (length data)))
      with true by (symmetry; apply andb_true_intro; split; lia).
    replace (a + Z.of_nat i - a) with (Z.of_nat i) by lia.
    rewrite Nat2Z.id.
    destruct (lookup_lt_is_Some_2 data i Hi) as [x Hx].
    rewrite Hx. f_equal. now apply nth_lookup_Some.
  - rewrite !lookup_ge_None_2; [reflexivity| lia |].
    rewrite length_read_from. lia.
Qed.

Lemma read_bytes_write_same m a data :
  read_bytes (write_bytes m a data) a (Z.of_nat (length data)) = data.
Proof. unfold read_bytes. rewrite Nat2Z.id. apply read_from_write_same. Qed.

Lemma read_bytes_write_disjoint m a data b n :
  b + n <= a \/ a + Z.of_nat (length data) <= b ->
  read_bytes (write_bytes m a data) b n = read_bytes m b n.
Proof.
  intros H. unfold read_bytes. apply read_from_ext. intros k Hk.
  unfold write_bytes.
  destruct (Z.leb_spec a (b + k)); destruct (Z.ltb_spec (b + k) (a + Z.of_nat (length data)));
    simpl; try reflexivity.
  lia.
Qed.

Lemma length_PutUint64 v : length (PutUint64 v) = 8%nat.
Proof.
  unfold PutUint64.
  pose proof (length_Z_to_little_endian 8 8 v ltac:(lia)). lia.
Qed.

Lemma Uint64_PutUint64 v : Uint64 (PutUint64 v) = u64 v.
Proof.
  unfold Uint64. rewrite take_ge by (rewrite length_PutUint64; lia).
  unfold PutUint64. rewrite little_endian_to_Z_to_little_endian by lia.
  reflexivity.
Qed.

(** A qword written to mapped memory reads back, modulo 2^64. *)
Lemma MemWrite_read_back e a v :
  mapped_range (regions e) a 8 = true ->
  MemReadU64 (MemWrite_ e a (PutUint64 v)) a = Some (u64 v).
Proof.
  intros Hm. unfold MemWrite_, MemWrite. rewrite length_PutUint64.
  change (Z.of_nat 8) with 8. rewrite Hm. simpl.
  unfold MemReadU64, MemRead. simpl. rewrite Hm. simpl. f_equal.
  pose proof (read_bytes_write_same (mem e) a (PutUint64 v)) as H.
  rewrite length_PutUint64 in H. change (Z.of_nat 8) with 8 in H.
  rewrite H. apply Uint64_PutUint64.
Qed.

Lemma X_SetX e n v : 0 <= n <= 30 -> X (SetX e n v) n = v.
Proof.
  intros Hn. unfold X, SetX.
  replace ((n <? 0) || (30 <? n)) with false
    by (symmetry; apply orb_false_intro; lia).
  unfold RegWrite, RegRead. simpl. now rewrite Z.eqb_refl.
Qed.

Lemma SetX_fields e n v :
  mem (SetX e n v) = mem e /\ heapPtr (SetX e n v) = heapPtr e /\
  stopped (SetX e n v) = stopped e /\ regions (SetX e n v) = regions e /\
  addrHooks (SetX e n v) = addrHooks e.
Proof. unfold SetX. destruct ((n <? 0) || (30 <? n)); easy. Qed.

Lemma X_ReturnFromStub e n : X (ReturnFromStub e) n = X e n.
Proof.
  unfold ReturnFromStub, SetPC, X, RegWrite, RegRead. simpl.
  destruct ((n <? 0) || (30 <? n)); reflexivity.
Qed.

End MemoryFacts.

(** ** The bump allocator *)

Section Allocator.
Import Emu Obs.

Lemma testbit_above x n : 0 <= x < 2 ^ n -> forall k, n <= k -> Z.testbit x k = false.
Proof.
  intros [H0 H1] k Hk. destruct (decide (x = 0)) as [->|Hx].
  - apply Z.bits_0.
  - apply Z.bits_above_log2; [assumption|].
    assert (Z.log2 x < n); [|lia].
    apply Z.log2_lt_pow2; lia.
Qed.

(** [x & ^uint64(15)] rounds a [uint64] down to a multiple of 16. *)
Lemma land_not15 x : 0 <= x < 2 ^ 64 -> Z.land x not15 = 16 * (x / 16).
Proof.
  intros Hx.
  replace (16 * (x / 16)) with (Z.shiftl (Z.shiftr x 4) 4).
  2:{ rewrite Z.shiftl_mul_pow2, Z.shiftr_div_pow2 by lia.
      change (2 ^ 4) with 16. lia. }
  change not15 with (Z.shiftl (Z.ones 60) 4).
  apply Z.bits_inj'. intros n Hn.
  rewrite Z.land_spec, !Z.shiftl_spec by lia.
  destruct (Z.ltb_spec n 4) as [Hlt|Hge].
  - rewrite !(Z.testbit_neg_r _ (n - 4)) by lia. apply andb_false_r.
  - rewrite Z.shiftr_spec by lia. replace (n - 4 + 4) with n by lia.
    destruct (Z.ltb_spec n 64) as [Hlt|Hhi].
    + rewrite Z.ones_spec_low by lia. apply andb_true_r.
    + rewrite Z.ones_spec_high by lia. rewrite andb_false_r.
      symmetry. now apply testbit_above with (n := 64).
Qed.

(** Without wrap-around the allocator behaves as documented: it panics
    exactly when the bumped pointer reaches the end of the heap, and
    otherwise returns a non-null, 16-byte-aligned heap address whose block
    ends at or below the next pointer, and keeps its invariant. *)
Lemma Malloc_without_wrap e size :
  heap_inv e -> 0 <= size <= 2 ^ 63 ->
  let rounded := 16 * ((size + 15) / 16) in
  match Malloc e size with
  | Panicked _ => HeapBase + HeapSize <= heapPtr e + rounded
  | Done (addr, e') =>
    addr = heapPtr e /\ addr <> 0 /\
    HeapBase <= addr < HeapBase + HeapSize /\ addr mod 16 = 0 /\
    heapPtr e' = addr + rounded /\ addr + size <= heapPtr e' /\
    heap_inv e' /\ mem e' = mem e /\ regions e' = regions e
  end.
Proof.
  intros [Hh Ha] Hs rounded. unfold Malloc; simpl.
  unfold HeapBase, HeapSize in *.
  assert (H15 : u64 (size + 15) = size + 15).
  { unfold u64. apply Z.mod_small. lia. }
  rewrite H15, land_not15 by lia. fold rounded.
  assert (Hr : size <= rounded < 2 ^ 63 + 16)
    by (unfold rounded; Z.div_mod_to_equations; lia).
  assert (Hu : u64 (heapPtr e + rounded) = heapPtr e + rounded).
  { unfold u64. apply Z.mod_small. lia. }
  rewrite Hu.
  destruct (Z.geb_spec (heapPtr e + rounded) (0x90000000 + 0x10000000)) as [Hge|Hlt].
  - lia.
  - unfold heap_inv, HeapBase, HeapSize; simpl.
    repeat split; try lia.
    unfold rounded. rewrite Z.add_mod, Ha by lia.
    rewrite Z.mul_comm, Z.mod_mul by lia. reflexivity.
Qed.

(** C10 (code defect).  The size is added to the heap pointer modulo 2^64
    and only the wrapped pointer is compared with the end of the heap: a
    request of 0xFFFFFFFF70000000 bytes on a fresh emulator does not panic
    and leaves the heap pointer at 0, so the next allocation returns the
    null address, and a vtable-stub call with X8 on the stack then takes
    the allocation-failure branch (X0 is the mock object, not X8). *)
Theorem Malloc_wraps_to_null :
  malloc_twice fresh 0xFFFFFFFF70000000 24 = Done (HeapBase, 0) /\
  malloc_then_vtable_stub fresh 0xFFFFFFFF70000000 StackBase
    = Done GetMockObject.
Proof. split; vm_compute; reflexivity. Qed.

End Allocator.

(** ** Static-initialisation guards *)

Section Guards.
Import Emu Stubs Cxxabi Obs.

Lemma guard_run_lookup cs gs e g :
  default false ((guard_run (gs, e) cs).1 !! g)
  = default false (gs !! g) || existsb (releases g) cs.
Proof.
  revert gs e; induction cs as [|c cs IH]; intros gs e; simpl.
  - now rewrite orb_false_r.
  - unfold guard_run in *. simpl.
    destruct c as [g'|g'|g']; simpl; rewrite IH; clear IH; simpl.
    + reflexivity.
    + rewrite X_SetX by lia.
      destruct (Z.eqb_spec g' g) as [->|Hne].
      * rewrite lookup_insert_eq. simpl. now rewrite orb_true_r.
      * rewrite lookup_insert_ne by assumption. reflexivity.
    + reflexivity.
Qed.

(** C9 (amended).  Starting from the cleared guard map, after any sequence
    of guard-stub calls [__cxa_guard_acquire(g)] returns 0 if
    [__cxa_guard_release(g)] was among them and 1 otherwise: acquiring
    never marks the guard, only releasing does. *)
Theorem acquire_returns_one_until_release (cs : list guard_call)
    (e : Emulator) (g : Z) :
  acquire_result cs e g = if existsb (releases g) cs then 0 else 1.
Proof.
  unfold acquire_result.
  pose proof (guard_run_lookup cs ClearGuardState e g) as H.
  destruct (guard_run (ClearGuardState, e) cs) as [gs e'] eqn:E.
  simpl in H. unfold ClearGuardState in H. rewrite lookup_empty in H.
  simpl in H. simpl. unfold stubCxaGuardAcquire. simpl.
  rewrite X_SetX by lia. rewrite H.
  rewrite X_ReturnFromStub.
  destruct (existsb (releases g) cs); now rewrite X_SetX by lia.
Qed.

(** C9 (counterexample).  Two acquires of the guard at 0x1000 with no
    release in between: the second one returns 1, not 0. *)
Lemma acquire_twice_returns_one :
  acquire_result [Acquire 0x1000] fresh 0x1000 = 1 /\
  acquire_result [Acquire 0x1000] fresh 0x1000 <> 0.
Proof. split; [vm_compute; reflexivity | vm_compute; discriminate]. Qed.

End Guards.

(** ** Relocations *)

Section Relocations.
Import Emu Elf Obs.

Lemma u64_idemp x : u64 (u64 x) = u64 x.
Proof. unfold u64. apply Z.mod_mod. lia. Qed.

Lemma u64_add_l x y : u64 (u64 x + y) = u64 (x + y).
Proof. unfold u64. now rewrite Zplus_mod_idemp_l. Qed.

Lemma u64_add_r x y : u64 (x + u64 y) = u64 (x + y).
Proof. unfold u64. now rewrite Zplus_mod_idemp_r. Qed.

Lemma u64_int64 x : u64 (int64 x) = u64 x.
Proof.
  unfold int64. destruct (u64 x <? 2 ^ 63); [apply u64_idemp|].
  unfold u64 at 1. rewrite Zminus_mod, Z.mod_same, Z.sub_0_r by lia.
  rewrite Z.mod_mod by lia. apply u64_idemp.
Qed.

(** C3 (amended).  For an [R_AARCH64_ABS64] entry whose target is mapped:
    if the symbol index has a dynamic symbol with [st_value != 0] the
    target receives [base + st_value + addend]; if that symbol has
    [st_value = 0], a non-empty name and a PLT stub under its
    version-stripped name, the target receives [plt_stub + addend]; if the
    symbol has [st_value = 0] and no name or no PLT stub, nothing is
    written; and only when the symbol index has no dynamic symbol at all
    does a positive addend make the target receive [base + addend]. *)
Theorem ABS64_relocation (relocOffset : Z) (imports : gmap string Z)
    (syms : gmap Z Symbol) (e : Emulator) (r : Rela) :
  Z.land (r_info r) 0xFFFFFFFF = R_AARCH64_ABS64 ->
  let target := u64 (r_offset r + relocOffset) in
  let addend := r_addend r in
  mapped_range (regions e) target 8 = true ->
  let e' := applyRelocation relocOffset imports syms e r in
  match syms !! Z.shiftr (r_info r) 32 with
  | Some sym =>
    if sym_Value sym =? 0 then
      if String.eqb (sym_Name sym) "" then e' = e
      else
        match imports !! stripVersion (sym_Name sym) with
        | Some plt_stub => qword e' target = Some (u64 (plt_stub + addend))
        | None => e' = e
        end
    else qword e' target = Some (u64 (relocOffset + sym_Value sym + addend))
  | None =>
    if int64 addend >? 0
    then qword e' target = Some (u64 (relocOffset + addend))
    else e' = e
  end.
Proof.
  intros Hty target addend Hmap e'. subst e'. unfold applyRelocation.
  rewrite Hty. simpl (R_AARCH64_ABS64 =? _).
  change (R_AARCH64_ABS64 =? R_AARCH64_GLOB_DAT) with false.
  change (R_AARCH64_ABS64 =? R_AARCH64_JUMP_SLOT) with false.
  change (R_AARCH64_ABS64 =? R_AARCH64_ABS64) with true.
  cbv iota. simpl orb. cbv iota. fold target.
  destruct (syms !! Z.shiftr (r_info r) 32) as [sym|].
  - destruct (sym_Value sym =? 0); simpl negb; cbv iota.
    + destruct (String.eqb (sym_Name sym) ""); simpl negb; cbv iota;
        [reflexivity|].
      destruct (imports !! stripVersion (sym_Name sym)) as [stub|];
        [|reflexivity].
      unfold qword. rewrite MemWrite_read_back by assumption.
      now rewrite u64_idemp, u64_int64, u64_add_r.
    + unfold qword. rewrite MemWrite_read_back by assumption.
      rewrite u64_idemp, u64_int64, u64_add_r, u64_add_l.
      f_equal. f_equal. fold addend. lia.
  - fold addend. destruct (int64 addend >? 0); [|reflexivity].
    unfold qword. rewrite MemWrite_read_back by assumption.
    now rewrite u64_idemp, u64_int64, u64_add_r.
Qed.

(** The theorem at a concrete entry: symbol 1 is internal at 0x2000, the
    image is rebased by 0x40000000, the addend is 8. *)
Lemma ABS64_relocation_witness :
  qword (applyRelocation 0x40000000 ∅
           {[ 1 := mkSymbol "init" 0x2000 ]}
           (with_regions [(0x40000000, 0x1000)] fresh)
           (rela 0x10 1 R_AARCH64_ABS64 8))
        0x40000010
  = Some 0x40002008.
Proof.
  exact (ABS64_relocation 0x40000000 ∅ {[ 1 := mkSymbol "init" 0x2000 ]}
           (with_regions [(0x40000000, 0x1000)] fresh)
           (rela 0x10 1 R_AARCH64_ABS64 8) eq_refl eq_refl).
Defined.

(** C3 (counterexample).  A named external symbol ([st_value = 0]) without
    a PLT stub and with addend 8: the claim's last branch would store
    [base + addend = 0x40000008]; the code stores nothing and the target
    keeps its zero. *)
Lemma ABS64_named_external_without_stub :
  let e' := applyRelocation 0x40000000 ∅
              {[ 1 := mkSymbol "malloc" 0 ]}
              (with_regions [(0x40000000, 0x1000)] fresh)
              (rela 0x10 1 R_AARCH64_ABS64 8) in
  qword e' 0x40000010 = Some 0 /\ qword e' 0x40000010 <> Some 0x40000008.
Proof. split; [vm_compute; reflexivity | vm_compute; discriminate]. Qed.

End Relocations.

(** ** The install cycle *)

Section InstallCycle.
Import Emu Stubs Setters Dispatch Obs.


Lemma same_but_hooks_HookAddress e1 e addr fn :
  same_but_hooks e1 e -> same_but_hooks e1 (HookAddress e addr fn).
Proof. intros H. exact H. Qed.






Lemma matchPattern_returns name pattern :
  pattern <> "*"%string -> exists m, matchPattern name pattern = Done m.
Proof.
  intros Hne. unfold matchPattern.
  destruct (GoStrings.Contains pattern "*"); [|eauto].
  destruct (GoStrings.HasPrefix pattern "*") eqn:Hp; cbn [andb]; [|].
  - destruct (GoStrings.HasSuffix pattern "*"); [|eauto].
    destruct (Nat.ltb_spec (String.length pattern - 1) 1) as [Hlt|Hge]; [|eauto].
    exfalso. apply Hne.
    destruct pattern as [|c [|c' rest]]; [discriminate | | simpl in Hlt; lia].
    unfold GoStrings.HasPrefix in Hp. cbn [String.prefix] in Hp.
    destruct (Ascii.ascii_dec "*" c) as [<-|]; [reflexivity | discriminate].
  - destruct (GoStrings.HasSuffix pattern "*"); eauto.
Qed.











End InstallCycle.

(** ** Vtable-stub hooks after the driver's installation *)

Section VtableStubs.
Import Emu Stubs Setters Driver Dispatch Obs.

Variable other : string -> Process -> Emulator -> outcome (Process * Emulator * bool).

Lemma install_fold_fields setterSlots l e :
  let e' := foldl (fun emu i =>
                     HookAddress emu (GetVtableStubs + i * 4)
                       (DriverVtableHook setterSlots i GetMockObject)) e l in
  mem e' = mem e /\ heapPtr e' = heapPtr e /\ regs e' = regs e /\
  stopped e' = stopped e /\ regions e' = regions e.
Proof.
  revert e. induction l as [|j l IH]; intros e; simpl; [easy|].
  destruct (IH (HookAddress e (GetVtableStubs + j * 4)
                  (DriverVtableHook setterSlots j GetMockObject)))
    as (H1 & H2 & H3 & H4 & H5).
  simpl in *. easy.
Qed.

Lemma install_fold_lookup setterSlots l e i :
  i ∈ l \/ addrHooks e !! (GetVtableStubs + i * 4)
           = Some (DriverVtableHook setterSlots i GetMockObject) ->
  addrHooks (foldl (fun emu i =>
                      HookAddress emu (GetVtableStubs + i * 4)
                        (DriverVtableHook setterSlots i GetMockObject)) e l)
    !! (GetVtableStubs + i * 4)
  = Some (DriverVtableHook setterSlots i GetMockObject).
Proof.
  revert e. induction l as [|j l IH]; intros e H; simpl.
  - destruct H as [H|H]; [now apply elem_of_nil in H | exact H].
  - apply IH. destruct (decide (j = i)) as [->|Hne].
    + right. simpl. apply lookup_insert_eq.
    + destruct H as [H|H].
      * apply elem_of_cons in H as [H|H]; [congruence | now left].
      * right. simpl. rewrite lookup_insert_ne by lia. exact H.
Qed.

(** C2 (amended).  [HookAddress] keeps one hook per address, so the
    driver's hooks replace the ones attached at construction.  After
    driver step 5, executing any of the 256 vtable-stub addresses runs the
    driver's hook alone: it sets X0 to the mock object whatever X8 holds,
    allocates nothing, writes no memory and does not stop. *)
Theorem driver_hook_replaces_stub_hook (p : Process) (e : Emulator)
    (slots : list SlotInfo) (i : Z) :
  0 <= i < 256 -> stopped e = false ->
  let e1 := installVtableStubHooks e slots in
  addrHooks e1 !! (GetVtableStubs + i * 4)
    = Some (DriverVtableHook (collectSetterSlots slots) i GetMockObject) /\
  exists p' e',
    codeHook other p e1 (GetVtableStubs + i * 4) = Done (p', e') /\
    X e' 0 = GetMockObject /\ mem e' = mem e /\ heapPtr e' = heapPtr e /\
    stopped e' = false.
Proof.
  intros Hi Hrun e1.
  assert (Hl : addrHooks e1 !! (GetVtableStubs + i * 4)
               = Some (DriverVtableHook (collectSetterSlots slots) i GetMockObject)).
  { apply install_fold_lookup. left. apply elem_of_seqZ.
    unfold VtableStubCount. lia. }
  assert (Hf : mem e1 = mem e /\ heapPtr e1 = heapPtr e /\
               stopped e1 = stopped e).
  { destruct (install_fold_fields (collectSetterSlots slots)
                (seqZ 0 VtableStubCount) e) as (Hm & Hh & _ & Hs & _).
    split; [exact Hm|]. split; [exact Hh | exact Hs]. }
  destruct Hf as (Hm & Hh & Hs). clearbody e1.
  split; [exact Hl|].
  unfold codeHook. rewrite Hs, Hrun, Hl.
  cbn [callHook mbind outcome_bind]. unfold driverVtableHook.
  eexists _, _. split; [reflexivity|].
  split; [apply X_SetX; lia|].
  destruct (SetX_fields e1 0 GetMockObject) as (Hm' & Hh' & Hs' & _).
  rewrite Hm', Hh', Hs'. split; [exact Hm|]. split; [exact Hh|].
  now rewrite Hs.
Qed.

End VtableStubs.

Section VtableStubExamples.
Import Emu Stubs Setters Driver Dispatch Obs.

(** The theorem after construction and driver step 5, at slot 3. *)
Lemma driver_hook_replaces_stub_hook_witness :
  let e := default fresh New in
  let e1 := installVtableStubHooks e [] in
  addrHooks e1 !! (GetVtableStubs + 3 * 4)
    = Some (DriverVtableHook (collectSetterSlots []) 3 GetMockObject) /\
  exists p' e',
    codeHook (fun _ p e => Done (p, e, false)) (mkProcess [] ∅ 0) e1
             (GetVtableStubs + 3 * 4) = Done (p', e') /\
    X e' 0 = GetMockObject /\ mem e' = mem e /\ heapPtr e' = heapPtr e /\
    stopped e' = false.
Proof.
  apply (driver_hook_replaces_stub_hook (fun _ p e => Done (p, e, false))
           (mkProcess [] ∅ 0) (default fresh New) [] 3).
  - lia.
  - vm_compute. reflexivity.
Defined.

(** C2 (counterexample).  After construction and driver step 5, with X8
    pointing into the stack, executing [vtable_stub[0]] leaves X0 at the
    mock object instead of X8, the heap pointer where it was (no [_Rep]
    was allocated) and the qword at X8 unchanged at zero. *)
Lemma vtable_stub_contract_lost_after_step5 :
  match New with
  | Some e0 =>
    let x8 := StackBase + 0x100 in
    let e1 := SetX (installVtableStubHooks e0 []) 8 x8 in
    match codeHook (fun _ p e => Done (p, e, false)) (mkProcess [] ∅ 0) e1
                   GetVtableStubs with
    | Done (_, e') =>
      in_stack x8 = true /\
      X e' 0 = GetMockObject /\ X e' 0 <> x8 /\
      heapPtr e' = HeapBase /\ qword e' x8 = Some 0
    | Panicked _ => False
    end
  | None => False
  end.
Proof. vm_compute. repeat split; discriminate. Qed.

(** Before step 5 the hook attached at construction does perform the
    contract of section 4.2 at the same input. *)
Lemma vtable_stub_contract_at_construction :
  match New with
  | Some e0 =>
    let x8 := StackBase + 0x100 in
    let e1 := SetX e0 8 x8 in
    match codeHook (fun _ p e => Done (p, e, false)) (mkProcess [] ∅ 0) e1
                   GetVtableStubs with
    | Done (_, e') =>
      X e' 0 = x8 /\ heapPtr e' = HeapBase + 48 /\
      qword e' x8 = Some (HeapBase + 24) /\
      qword e' HeapBase = Some 0 /\ qword e' (HeapBase + 8) = Some 15 /\
      MemRead e' (HeapBase + 16) 4 = Some [0; 0; 0; 0]
    | Panicked _ => False
    end
  | None => False
  end.
Proof. vm_compute. repeat split. Qed.

End VtableStubExamples.

(** ** The address map after construction *)

Section Construction.
Import Emu Obs.

Lemma New_address_map :
  match New with
  | Some e => address_map_stable e
  | None => False
  end.
Proof.
  assert (H : match New with
              | Some e => bool_decide (address_map_stable e)
              | None => false
              end = true) by (vm_compute; reflexivity).
  destruct New as [e|]; [|discriminate].
  now apply bool_decide_eq_true in H.
Qed.

(** C6.  [New] succeeds, and in the emulator it returns the canary, the
    [_ctype_] pointer, the first qword of both mock objects and the 255
    member pointers of [mock_obj] hold the values of section 8.1(1). *)
Theorem address_map_after_New :
  exists e, New = Some e /\
    qword e (TLSBase + 0x28) = Some 0xDEADBEEFDEADBEEF /\
    qword e (LibcBase + CtypePtrOffset) = Some (LibcBase + CtypeTableOffset + 1) /\
    qword e mock_obj = Some mock_vtable /\
    qword e mock_obj2 = Some mock_vtable /\
    forall i, 1 <= i < 256 -> qword e (mock_obj + i * 8) = Some mock_obj2.
Proof.
  pose proof New_address_map as H.
  destruct New as [e|]; [|contradiction].
  exists e. split; [reflexivity|].
  destruct H as (H1 & H2 & H3 & H4 & H5).
  split; [exact H1|]. split; [exact H2|]. split; [exact H3|].
  split; [exact H4|].
  intros i Hi. rewrite Forall_forall in H5. apply H5.
  apply elem_of_seqZ. lia.
Qed.

(** The member pointer at index 255, the last one, from the theorem. *)
Lemma address_map_after_New_witness :
  exists e, New = Some e /\ qword e (mock_obj + 255 * 8) = Some mock_obj2.
Proof.
  destruct address_map_after_New as (e & HN & _ & _ & _ & _ & H).
  exists e. split; [exact HN|]. apply H. lia.
Defined.

Lemma ctype_entries : Forall ctype_entry_ok (seqZ 0 256).
Proof.
  assert (H : bool_decide (Forall ctype_entry_ok (seqZ 0 256)) = true)
    by (vm_compute; reflexivity).
  now apply bool_decide_eq_true in H.
Qed.

Lemma New_ctype_table :
  match New with
  | Some e => MemRead e (LibcBase + CtypeTableOffset) 257 = Some ctypeTable
  | None => False
  end.
Proof.
  assert (H : match New with
              | Some e => bool_decide (MemRead e (LibcBase + CtypeTableOffset) 257
                                       = Some ctypeTable)
              | None => false
              end = true) by (vm_compute; reflexivity).
  destruct New as [e|]; [|discriminate].
  now apply bool_decide_eq_true in H.
Qed.

(** C7.  The table computed at construction has 257 bytes, byte 0 (EOF) is
    0, and for every character value [c] in 0..255 the byte at index [c+1]
    is the reference byte: bit [_U] for 'A'..'Z', [_L] for 'a'..'z', [_N]
    for digits, [_S] for space, tab, newline, carriage return, form feed
    and vertical tab, [_P] for the four punctuation ranges, [_C] for the
    remaining controls, [_B] for space and tab, [_X] for hexadecimal
    digits, and no other bit; it is the table written at
    [Libc+CtypeTableOffset]. *)
Theorem ctype_table_matches_reference :
  length ctypeTable = 257%nat /\
  ctypeTable !! 0%nat = Some 0 /\
  (forall c, 0 <= c < 256 -> ctype_entry_ok c) /\
  exists e, New = Some e /\
    MemRead e (LibcBase + CtypeTableOffset) 257 = Some ctypeTable.
Proof.
  split; [vm_compute; reflexivity|].
  split; [vm_compute; reflexivity|].
  split.
  - intros c Hc. pose proof ctype_entries as H.
    rewrite Forall_forall in H. apply H. apply elem_of_seqZ. lia.
  - pose proof New_ctype_table as H.
    destruct New as [e|]; [|contradiction]. eauto.
Qed.

(** The entry of the letter 'A' (65), from the theorem. *)
Lemma ctype_table_matches_reference_witness : ctype_entry_ok 65.
Proof.
  destruct ctype_table_matches_reference as (_ & _ & H & _).
  apply H. lia.
Defined.

End Construction.

(** ** Printable-only capture *)

Section Capture.
Import Emu Stubs Utf8 Setters Driver Dispatch Obs.

Lemma lor_ge_128 a b :
  0 <= a -> 0 <= b -> 128 <= a \/ 128 <= b -> 128 <= Z.lor a b.
Proof.
  intros Ha Hb H.
  assert (Hr : 0 <= Z.lor a b) by (apply Z.lor_nonneg; lia).
  assert (Hl : 7 <= Z.log2 (Z.lor a b)).
  { rewrite Z.log2_lor by assumption.
    destruct H as [H|H]; apply Z.log2_le_mono in H;
      change (Z.log2 128) with 7 in H; lia. }
  destruct (Z.lt_ge_cases (Z.lor a b) 128) as [Hlt|]; [|assumption].
  destruct (decide (Z.lor a b = 0)) as [H0|H0].
  - rewrite H0 in Hl. change (Z.log2 0) with 0 in Hl. lia.
  - assert (Z.log2 (Z.lor a b) < 7); [|lia].
    apply Z.log2_lt_pow2; lia.
Qed.

Lemma land_mask_nonneg x m : 0 <= m -> 0 <= Z.land x m.
Proof. intros. apply Z.land_nonneg. now right. Qed.

Lemma shiftl_mask_nonneg x m n : 0 <= m -> 0 <= Z.shiftl (Z.land x m) n.
Proof. intros. apply Z.shiftl_nonneg. now apply land_mask_nonneg. Qed.

Lemma shiftl_mask_ge x k n lo :
  0 <= k -> 0 <= n -> lo <= x mod 2 ^ k -> 128 <= lo * 2 ^ n ->
  128 <= Z.shiftl (Z.land x (Z.ones k)) n.
Proof.
  intros Hk Hn Hlo H. rewrite Z.land_ones, Z.shiftl_mul_pow2 by assumption.
  assert (0 < 2 ^ n) by (apply Z.pow_pos_nonneg; lia). nia.
Qed.

Lemma rune2_ge p0 b1 :
  0xC2 <= p0 < 0xE0 ->
  128 <= Z.lor (Z.shiftl (Z.land p0 0x1F) 6) (Z.land b1 0x3F).
Proof.
  intros Hp. apply lor_ge_128;
    [now apply shiftl_mask_nonneg | now apply land_mask_nonneg |].
  left. change 0x1F with (Z.ones 5).
  apply shiftl_mask_ge with (lo := 2); [lia | lia | | vm_compute; discriminate].
  change (2 ^ 5) with 32. Z.div_mod_to_equations. lia.
Qed.

Lemma rune3_ge p0 b1 b2 :
  0xE0 <= p0 < 0xF0 -> (p0 = 0xE0 -> 0xA0 <= b1 <= 0xBF) ->
  128 <= Z.lor (Z.lor (Z.shiftl (Z.land p0 0x0F) 12)
                      (Z.shiftl (Z.land b1 0x3F) 6))
               (Z.land b2 0x3F).
Proof.
  intros Hp Hb.
  apply lor_ge_128; [ | now apply land_mask_nonneg | left].
  { apply Z.lor_nonneg. split; now apply shiftl_mask_nonneg. }
  apply lor_ge_128; [now apply shiftl_mask_nonneg | now apply shiftl_mask_nonneg |].
  destruct (decide (p0 = 0xE0)) as [Heq|Hne].
  - right. change 0x3F with (Z.ones 6).
    apply shiftl_mask_ge with (lo := 32); [lia | lia | | vm_compute; discriminate].
    specialize (Hb Heq). change (2 ^ 6) with 64. Z.div_mod_to_equations. lia.
  - left. change 0x0F with (Z.ones 4).
    apply shiftl_mask_ge with (lo := 1); [lia | lia | | vm_compute; discriminate].
    change (2 ^ 4) with 16. Z.div_mod_to_equations. lia.
Qed.

Lemma rune4_ge p0 b1 b2 b3 :
  0xF0 <= p0 <= 0xF4 -> (p0 = 0xF0 -> 0x90 <= b1 <= 0xBF) ->
  128 <= Z.lor (Z.lor (Z.lor (Z.shiftl (Z.land p0 0x07) 18)
                             (Z.shiftl (Z.land b1 0x3F) 12))
                      (Z.shiftl (Z.land b2 0x3F) 6))
               (Z.land b3 0x3F).
Proof.
  intros Hp Hb.
  apply lor_ge_128; [ | now apply land_mask_nonneg | left].
  { apply Z.lor_nonneg. split; [|now apply shiftl_mask_nonneg].
    apply Z.lor_nonneg. split; now apply shiftl_mask_nonneg. }
  apply lor_ge_128; [ | now apply shiftl_mask_nonneg | left].
  { apply Z.lor_nonneg. split; now apply shiftl_mask_nonneg. }
  apply lor_ge_128; [now apply shiftl_mask_nonneg | now apply shiftl_mask_nonneg |].
  destruct (decide (p0 = 0xF0)) as [Heq|Hne].
  - right. change 0x3F with (Z.ones 6).
    apply shiftl_mask_ge with (lo := 16); [lia | lia | | vm_compute; discriminate].
    specialize (Hb Heq). change (2 ^ 6) with 64. Z.div_mod_to_equations. lia.
  - left. change 0x07 with (Z.ones 3).
    apply shiftl_mask_ge with (lo := 1); [lia | lia | | vm_compute; discriminate].
    change (2 ^ 3) with 8. Z.div_mod_to_equations. lia.
Qed.

Ltac to_Z_facts :=
  repeat match goal with
         | E : (_ || _) = false |- _ => apply orb_false_elim in E as [? ?]
         | E : (_ || _) = true |- _ => apply orb_true_iff in E
         | E : (_ <? _) = true |- _ => apply Z.ltb_lt in E
         | E : (_ <? _) = false |- _ => apply Z.ltb_ge in E
         | E : (_ <=? _) = true |- _ => apply Z.leb_le in E
         | E : (_ <=? _) = false |- _ => apply Z.leb_gt in E
         | E : (_ =? _) = true |- _ => apply Z.eqb_eq in E
         | E : (_ =? _) = false |- _ => apply Z.eqb_neq in E
         end.

(** A rune below 0x7F can only come from a one-byte sequence. *)
Lemma DecodeRune_ascii p0 rest r w :
  DecodeRune (p0 :: rest) = (r, w) -> r <= 0x7E -> r = p0 /\ w = 1%nat.
Proof.
  unfold DecodeRune, RuneError. intros H Hr.
  destruct (p0 <? 0x80) eqn:E0.
  { injection H as <- <-. split; reflexivity. }
  exfalso.
  destruct ((p0 <? 0xC2) || (0xF4 <? p0)) eqn:E1.
  { injection H as <- <-. lia. }
  destruct rest as [|b1 rest1]; [injection H as <- <-; lia|].
  destruct (Z.of_nat (length (p0 :: b1 :: rest1)) <? _) eqn:E2;
    [injection H as <- <-; lia|].
  destruct ((b1 <? _) || (_ <? b1)) eqn:E3; [injection H as <- <-; lia|].
  destruct (p0 <? 0xE0) eqn:E4.
  { simpl in H. injection H as <- <-. to_Z_facts.
    pose proof (rune2_ge p0 b1 ltac:(lia)). lia. }
  destruct (p0 <? 0xF0) eqn:E5.
  { simpl in H. destruct rest1 as [|b2 rest2]; [injection H as <- <-; lia|].
    destruct ((b2 <? 128) || (191 <? b2)); [injection H as <- <-; lia|].
    injection H as <- <-. to_Z_facts.
    assert (Hb : p0 = 0xE0 -> 0xA0 <= b1 <= 0xBF).
    { intros ->. simpl in *. lia. }
    pose proof (rune3_ge p0 b1 b2 ltac:(lia) Hb). lia. }
  simpl in H. destruct rest1 as [|b2 rest2]; [injection H as <- <-; lia|].
  destruct ((b2 <? 128) || (191 <? b2)); [injection H as <- <-; lia|].
  destruct rest2 as [|b3 rest3]; [injection H as <- <-; lia|].
  destruct ((b3 <? 128) || (191 <? b3)); [injection H as <- <-; lia|].
  injection H as <- <-. to_Z_facts.
  assert (Hb : p0 = 0xF0 -> 0x90 <= b1 <= 0xBF).
  { intros ->. simpl in *. lia. }
  pose proof (rune4_ge p0 b1 b2 b3 ltac:(lia) Hb). lia.
Qed.

Lemma runes_fuel_ascii fuel s :
  (length s <= fuel)%nat ->
  Forall (fun c => 0x20 <= c <= 0x7E) s -> runes_fuel fuel s = s.
Proof.
  revert s. induction fuel as [|fuel IH]; intros s Hlen Hs.
  - destruct s; [reflexivity | simpl in Hlen; lia].
  - destruct s as [|p0 rest]; [reflexivity|].
    inversion Hs as [|? ? Hp Hrest]; subst.
    cbn [runes_fuel]. unfold DecodeRune.
    replace (p0 <? 128) with true by (symmetry; apply Z.ltb_lt; lia).
    cbn [drop]. f_equal. apply IH; [simpl in Hlen; lia | assumption].
Qed.

Lemma runes_fuel_printable fuel s :
  (length s <= fuel)%nat ->
  forallb (fun c => negb ((c <? 0x20) || (c >? 0x7e))) (runes_fuel fuel s) = true ->
  Forall (fun c => 0x20 <= c <= 0x7E) s.
Proof.
  revert s. induction fuel as [|fuel IH]; intros s Hlen H.
  - destruct s; [constructor | simpl in Hlen; lia].
  - destruct s as [|p0 rest]; [constructor|].
    cbn [runes_fuel] in H.
    destruct (DecodeRune (p0 :: rest)) as [r w] eqn:E.
    cbn [forallb] in H. apply andb_prop in H as [Hr Hrest].
    apply negb_true_iff, orb_false_elim in Hr as [Hlo Hhi].
    apply Z.ltb_ge in Hlo. rewrite Z.gtb_ltb in Hhi. apply Z.ltb_ge in Hhi.
    destruct (DecodeRune_ascii p0 rest r w E Hhi) as [-> ->].
    cbn [drop] in Hrest. constructor; [lia|].
    apply IH; [simpl in Hlen; lia | assumption].
Qed.

(** [isPrintable] accepts exactly the non-empty strings all of whose
    bytes lie in 0x20..0x7E. *)
Lemma isPrintable_spec s : isPrintable s = true <-> printable s.
Proof.
  unfold isPrintable, printable, runes. split.
  - destruct s as [|c s]; [discriminate|]. cbn [length Nat.eqb].
    intros H. split; [discriminate|].
    now apply runes_fuel_printable with (fuel := length (c :: s)).
  - intros [Hne Hs]. destruct s as [|c s]; [contradiction|].
    cbn [length Nat.eqb].
    rewrite runes_fuel_ascii by (auto; lia).
    apply forallb_forall. intros x Hx. rewrite Forall_forall in Hs.
    apply list_elem_of_In in Hx. specialize (Hs x Hx).
    apply negb_true_iff, orb_false_intro; [apply Z.ltb_ge; lia|].
    rewrite Z.gtb_ltb. apply Z.ltb_ge. lia.
Qed.

Lemma isPrintableKey_spec s : isPrintableKey s = true <-> printable s.
Proof.
  unfold isPrintableKey, printable. split.
  - intros H. apply andb_prop in H as [Hn Hs]. split.
    + destruct s; [discriminate | discriminate].
    + apply Forall_forall. intros x Hx. apply list_elem_of_In in Hx.
      rewrite forallb_forall in Hs. specialize (Hs x Hx).
      apply andb_prop in Hs as [H1 H2].
      apply Z.leb_le in H1. apply Z.leb_le in H2. lia.
  - intros [Hne Hs]. apply andb_true_intro. split.
    + destruct s; [contradiction | reflexivity].
    + apply forallb_forall. intros x Hx. apply list_elem_of_In in Hx.
      rewrite Forall_forall in Hs. specialize (Hs x Hx).
      apply andb_true_intro. split; apply Z.leb_le; lia.
Qed.

Lemma ok_or_empty_nil : ok_or_empty [].
Proof. now left. Qed.

Lemma ok_or_empty_if (b : bool) x y :
  ok_or_empty x -> ok_or_empty y -> ok_or_empty (if b then x else y).
Proof. now destruct b. Qed.

Lemma accept_ok key str : ok_or_empty key -> ok_or_empty (accept key str).
Proof.
  intros Hk. unfold accept.
  destruct (nonempty str && isPrintable str) eqn:E; [|assumption].
  apply andb_prop in E as [_ E]. right. now apply isPrintable_spec.
Qed.

Lemma scan_regs_ok skip e rs : ok_or_empty (scan_regs skip e rs).
Proof.
  induction rs as [|reg rs IH]; cbn [scan_regs]; [apply ok_or_empty_nil|].
  destruct (skip (X e reg)); [assumption|].
  destruct (nonempty _ && isPrintable _) eqn:E; [|assumption].
  apply andb_prop in E as [_ E]. right. now apply isPrintable_spec.
Qed.

Lemma ok_nonempty key :
  ok_or_empty key -> is_empty key = false -> printable key.
Proof.
  intros [->|H] He; [discriminate | assumption].
Qed.

Lemma captureKey_ok ks k :
  keys_printable ks -> printable (Value k) -> keys_printable (captureKey ks k).
Proof.
  intros Hks Hk. unfold captureKey, keys_printable.
  apply Forall_app. split; [assumption|]. now constructor.
Qed.

Lemma CaptureKeyDirect_ok ks value source address :
  keys_printable ks -> printable value ->
  keys_printable (CaptureKeyDirect ks value source address).
Proof. intros Hks Hv. unfold CaptureKeyDirect. now apply captureKey_ok. Qed.

(** The shape shared by the setter hooks: a key captured when non-empty,
    then possibly a signature. *)
Lemma capture_key_and_sign ks key sign (c : bool) k s :
  keys_printable ks -> ok_or_empty key ->
  Value k = key -> Value s = sign -> (c = true -> printable sign) ->
  keys_printable
    (if negb (is_empty key)
     then (if c then captureKey (captureKey ks k) s else captureKey ks k)
     else ks).
Proof.
  intros Hks Hk Hvk Hvs Hc.
  destruct (is_empty key) eqn:He; cbn [negb]; [assumption|].
  assert (Hk' : keys_printable (captureKey ks k)).
  { apply captureKey_ok; [assumption|]. rewrite Hvk. now apply ok_nonempty. }
  destruct c; [|assumption].
  apply captureKey_ok; [assumption|]. rewrite Hvs. now apply Hc.
Qed.

Ltac ok_tac :=
  repeat first
    [ apply ok_or_empty_nil
    | apply accept_ok
    | apply scan_regs_ok
    | apply ok_or_empty_if
    | match goal with
      | |- ok_or_empty (match ?o with Some _ => _ | None => _ end) =>
        destruct o
      end ].

Lemma makeXXTeaKeyHook_ok funcName ks e :
  keys_printable ks -> keys_printable (makeXXTeaKeyHook funcName ks e).1.1.
Proof.
  intros Hks. unfold makeXXTeaKeyHook. lazy zeta. cbn [fst].
  match goal with
  | |- keys_printable
         (if negb (is_empty ?key) then
            (if ?c1 then (if ?c2 then captureKey (captureKey _ ?k) ?s else _)
             else _)
          else _) =>
    assert (Hk : ok_or_empty key) by ok_tac;
    assert (Hc : c1 && c2 = true -> printable (Value s))
      by (intros Hc; apply andb_prop in Hc as [_ Hc];
          apply andb_prop in Hc as [_ Hc]; cbn [Value];
          now apply isPrintable_spec);
    generalize (capture_key_and_sign ks key (Value s) (c1 && c2) k s Hks Hk
                  eq_refl eq_refl Hc);
    clear Hk Hc;
    destruct (is_empty key); destruct c1; destruct c2; cbn [negb andb];
    intros H; exact H
  end.
Qed.

Lemma makeGenericKeyHook_ok funcName keyType ks e :
  keys_printable ks ->
  keys_printable (makeGenericKeyHook funcName keyType ks e).1.1.
Proof.
  intros Hks. unfold makeGenericKeyHook. lazy zeta. cbn [fst].
  match goal with
  | |- keys_printable (if nonempty ?key then _ else _) =>
    pose proof (scan_regs_ok
      (fun keyPtr => (keyPtr =? 0) || (keyPtr >? 0x7000000000000000))
      e [0; 1; 2]) as Hk;
    destruct key as [|c key'] eqn:E
  end; [assumption|].
  cbn [nonempty length Nat.ltb Nat.leb]. apply captureKey_ok; [assumption|].
  cbn [Value]. destruct Hk as [Hk|Hk]; [discriminate | assumption].
Qed.

Lemma makeStdStringSetterHook_ok funcName ks e :
  keys_printable ks ->
  keys_printable (makeStdStringSetterHook funcName ks e).1.1.
Proof.
  intros Hks. unfold makeStdStringSetterHook. lazy zeta. cbn [fst].
  match goal with
  | |- keys_printable
         (if negb (is_empty ?key) then
            (if negb (is_empty ?sign) then captureKey (captureKey _ ?k) ?s
             else _)
          else _) =>
    assert (Hk : ok_or_empty key) by ok_tac;
    assert (Hs : ok_or_empty sign) by ok_tac;
    apply (capture_key_and_sign ks key sign (negb (is_empty sign)) k s Hks Hk
             eq_refl eq_refl)
  end.
  intros Hc. apply negb_true_iff in Hc. now apply ok_nonempty.
Qed.

Lemma driverVtableHook_ok setterSlots slotIdx mockObj hits ks e :
  keys_printable ks ->
  keys_printable (driverVtableHook setterSlots slotIdx mockObj hits ks e).1.1.2.
Proof.
  intros Hks. unfold driverVtableHook. lazy zeta. cbn [fst snd].
  destruct (setterSlots !! slotIdx) as [slot|]; [|assumption].
  match goal with
  | |- keys_printable (if ?c then
                         match ?r with Some _ => _ | None => ?ks1 end
                       else _) =>
    assert (H1 : keys_printable ks1); [|destruct c; [destruct r as [sign|]|]]
  end.
  - destruct ((X e 2 >? 0) && (X e 2 <? 256) && (X e 1 >? 4096));
      [|assumption].
    destruct (MemRead e (X e 1) (X e 2)) as [key|]; [|assumption].
    destruct (isPrintableKey key) eqn:E; [|assumption].
    apply CaptureKeyDirect_ok; [assumption | now apply isPrintableKey_spec].
  - destruct (isPrintableKey sign) eqn:E; [|assumption].
    apply CaptureKeyDirect_ok; [assumption | now apply isPrintableKey_spec].
  - assumption.
  - assumption.
Qed.

Section AnyOther.

Variable other : string -> Process -> Emulator -> outcome (Process * Emulator * bool).

Lemma keys_after_ok hook p e :
  capture_hook hook -> keys_printable (capturedKeys p) ->
  keys_printable (keys_after other hook p e).
Proof.
  intros Hh Hks. unfold keys_after. destruct Hh; cbn [callHook].
  - pose proof (makeXXTeaKeyHook_ok funcName (capturedKeys p) e Hks) as H.
    destruct (makeXXTeaKeyHook funcName (capturedKeys p) e) as [[ks e'] stop].
    exact H.
  - pose proof (makeGenericKeyHook_ok funcName keyType (capturedKeys p) e Hks) as H.
    destruct (makeGenericKeyHook funcName keyType (capturedKeys p) e)
      as [[ks e'] stop].
    exact H.
  - pose proof (makeStdStringSetterHook_ok funcName (capturedKeys p) e Hks) as H.
    destruct (makeStdStringSetterHook funcName (capturedKeys p) e)
      as [[ks e'] stop].
    exact H.
  - pose proof (driverVtableHook_ok setterSlots slotIdx mockObj
                  (hookHitCount p) (capturedKeys p) e Hks) as H.
    destruct (driverVtableHook setterSlots slotIdx mockObj (hookHitCount p)
                (capturedKeys p) e) as [[[n ks] e'] stop].
    exact H.
Qed.

(** C1.  Every list the process-wide captured-keys variable can hold,
    from the driver's clearing on through any number of firings of the
    three setter hooks and of the driver's vtable-stub hook (which goes
    through [CaptureKeyDirect]) on arbitrary guest states, contains only
    keys whose value is non-empty and made of bytes in 0x20..0x7E. *)
Theorem captured_keys_printable (ks : list CapturedKey) :
  captured other ks -> keys_printable ks.
Proof.
  induction 1 as [|ks hook guards hits e Hc IH Hh].
  - constructor.
  - now apply keys_after_ok.
Qed.

End AnyOther.

(** The theorem after one firing of the generic key hook with X1
    pointing at the bytes "KEY\0": one key is captured, with that value. *)
Lemma captured_keys_printable_witness :
  let other := fun (_ : string) (p : Process) (e : Emulator) => Done (p, e, false) in
  let e := SetX (MemWrite_ (with_regions [(0x40000000, 0x1000)] fresh)
                           0x40000000 [75; 69; 89; 0]) 1 0x40000000 in
  let ks := keys_after other (GenericKeyHook "setAESKey" "aes")
                       (mkProcess ClearCapturedKeys ∅ 0) e in
  map Value ks = [[75; 69; 89]] /\ keys_printable ks.
Proof.
  split; [vm_compute; reflexivity|].
  apply (captured_keys_printable
           (fun (_ : string) (p : Process) (e : Emulator) => Done (p, e, false))).
  apply captured_hook; constructor.
Defined.

End Capture.

(** ** The SSO string codec *)

Section SSOCodec.
Import Emu Stubs Cxxabi Obs.

Lemma put64_little_endian v : put64 v = Z_to_little_endian 8 8 v.
Proof.
  apply list_eq. intros i.
  destruct (decide (i < 8)%nat) as [Hi|Hi].
  - transitivity (Some (Z.land (Z.shiftr v (Z.of_nat i * 8)) (Z.ones 8))).
    + unfold put64. rewrite list_lookup_fmap.
      rewrite lookup_seq_lt by lia. cbn [fmap option_fmap option_map].
      f_equal. unfold u8. rewrite Z.land_ones by lia.
      now rewrite (Z.mul_comm 8).
    + symmetry. apply Z_to_little_endian_lookup_Some; [lia | lia |].
      split; [lia | reflexivity].
  - rewrite !lookup_ge_None_2; [reflexivity | |].
    + pose proof (length_Z_to_little_endian 8 8 v ltac:(lia)). lia.
    + unfold put64. rewrite length_map, length_seq. lia.
Qed.

(** The spelled-out little-endian read is [little_endian_to_Z] on the
    eight bytes. *)
Lemma le64_at_little_endian data off :
  le64_at data off
  = little_endian_to_Z 8 (map (fun k => byte_at data (off + k)) (seq 0 8)).
Proof.
  unfold le64_at. cbn [seq map foldl little_endian_to_Z].
  rewrite Nat.add_0_r.
  rewrite !Z.shiftl_lor, !Z.shiftl_shiftl by lia.
  rewrite Z.shiftl_0_l, Z.lor_0_r.
  rewrite !Z.lor_assoc. reflexivity.
Qed.

Lemma le64_at_put64 data off v :
  (forall k, (k < 8)%nat ->
             byte_at data (off + k) = u8 (Z.shiftr v (8 * Z.of_nat k))) ->
  le64_at data off = u64 v.
Proof.
  intros H. rewrite le64_at_little_endian.
  replace (map (fun k => byte_at data (off + k)) (seq 0 8)) with (put64 v).
  - rewrite put64_little_endian.
    now rewrite little_endian_to_Z_to_little_endian by lia.
  - unfold put64. apply map_ext_in. intros k Hk.
    apply in_seq in Hk. symmetry. apply H. lia.
Qed.

Lemma short_object_shape s :
  (length s <= 22)%nat ->
  exists pad, short_object s = (2 * Z.of_nat (length s)) :: s ++ pad /\
              length pad = (23 - length s)%nat.
Proof.
  intros Hlen. unfold short_object, copy_into, SSOMaxLen.
  set (h := u8 (Z.shiftl (Z.of_nat (length s)) 1)).
  change (<[0%nat := h]> (replicate 24 0)) with (h :: replicate 23 0).
  rewrite length_cons, length_replicate.
  replace (S 23 - 1)%nat with 23%nat by reflexivity.
  rewrite (take_ge s 23) by lia.
  change (take 1 (h :: replicate 23 0)) with [h].
  change (drop (1 + length s) (h :: replicate 23 0))
    with (drop (length s) (replicate 23 0)).
  rewrite drop_replicate. subst h.
  assert (Hh : u8 (Z.shiftl (Z.of_nat (length s)) 1) = 2 * Z.of_nat (length s)).
  { unfold u8. rewrite Z.shiftl_mul_pow2 by lia. change (2 ^ 1) with 2.
    rewrite Z.mod_small by lia. lia. }
  rewrite Hh. cbn [app].
  destruct (Z.of_nat (length s) <? 22) eqn:E.
  - exists (<[0%nat := 0]> (replicate (23 - length s) 0)). split.
    + replace (Z.to_nat (1 + Z.of_nat (length s))) with (S (length s)) by lia.
      rewrite !app_comm_cons.
      rewrite insert_app_r_alt by (rewrite length_cons; lia).
      now rewrite length_cons, Nat.sub_diag.
    + now rewrite length_insert, length_replicate.
  - exists (replicate (23 - length s) 0). split; [reflexivity|].
    now rewrite length_replicate.
Qed.

Lemma WriteSSO_short e addr s :
  (length s <= 22)%nat -> 0x1000 <= addr ->
  mapped_range (regions e) addr 24 = true ->
  exists e', WriteSSOString e addr s = Done (e', true) /\
             ReadSSOString e' addr = Some s /\
             Z.land (mem e' addr) 1 = 0 /\ heapPtr e' = heapPtr e.
Proof.
  intros Hlen Haddr Hmap.
  destruct (short_object_shape s Hlen) as (pad & Hobj & Hpad).
  assert (Hl : length (short_object s) = 24%nat).
  { rewrite Hobj, length_cons, length_app, Hpad. lia. }
  unfold WriteSSOString, SSOMaxLen, SSOObjSize.
  replace (Z.of_nat (length s) <=? 22) with true
    by (symmetry; apply Z.leb_le; lia).
  change (Z.to_nat 24) with 24%nat. fold SSOMaxLen. fold (short_object s).
  unfold MemWrite. rewrite Hl. change (Z.of_nat 24) with 24. rewrite Hmap.
  eexists. split; [reflexivity|].
  assert (Hbit : Z.land (2 * Z.of_nat (length s)) 1 = 0).
  { change 1 with (Z.ones 1). rewrite Z.land_ones by lia.
    change (2 ^ 1) with 2. rewrite Z.mul_comm. apply Z.mod_mul. lia. }
  split; [|split; [|reflexivity]].
  - unfold ReadSSOString, SSOObjSize, SSOMaxLen.
    replace ((addr =? 0) || (addr <? 4096)) with false
      by (symmetry; apply orb_false_intro; [apply Z.eqb_neq | apply Z.ltb_ge]; lia).
    unfold MemRead. cbn [regions mem with_mem]. rewrite Hmap.
    cbn [mbind option_bind].
    pose proof (read_bytes_write_same (mem e) addr (short_object s)) as Hrd.
    rewrite Hl in Hrd. change (Z.of_nat 24) with 24 in Hrd. rewrite Hrd.
    rewrite Hl. change (24 <? Z.to_nat 24)%nat with false. cbv iota.
    rewrite Hobj. unfold byte_at. cbn [nth]. rewrite Hbit.
    change (0 =? 1) with false. cbv iota.
    rewrite Z.shiftr_div_pow2 by lia. change (2 ^ 1) with 2.
    replace (2 * Z.of_nat (length s) / 2) with (Z.of_nat (length s))
      by (rewrite Z.mul_comm, Z.div_mul; lia).
    replace ((Z.of_nat (length s) >? 22) || (Z.of_nat (length s) <? 0))
      with false
      by (symmetry; apply orb_false_intro;
          [rewrite Z.gtb_ltb; apply Z.ltb_ge | apply Z.ltb_ge]; lia).
    rewrite Nat2Z.id.
    change (drop 1 (2 * Z.of_nat (length s) :: s ++ pad)) with (s ++ pad).
    now rewrite take_app_length.
  - cbn [mem with_mem]. unfold write_bytes. rewrite Hl.
    replace ((addr <=? addr) && (addr <? addr + Z.of_nat 24)) with true
      by (symmetry; apply andb_true_intro; split;
          [apply Z.leb_le | apply Z.ltb_lt]; lia).
    rewrite Z.sub_diag. rewrite Hobj. cbn [Z.to_nat nth]. exact Hbit.
Qed.

Lemma read_bytes_write_prefix m a s t :
  read_bytes (write_bytes m a (s ++ t)) a (Z.of_nat (length s)) = s.
Proof.
  unfold read_bytes. rewrite Nat2Z.id. apply list_eq. intros i.
  destruct (decide (i < length s)%nat) as [Hi|Hi].
  - rewrite read_from_lookup by assumption. unfold write_bytes.
    rewrite length_app.
    replace ((a <=? a + Z.of_nat i)
             && (a + Z.of_nat i <? a + Z.of_nat (length s + length t)))
      with true
      by (symmetry; apply andb_true_intro; split;
          [apply Z.leb_le | apply Z.ltb_lt]; lia).
    replace (a + Z.of_nat i - a) with (Z.of_nat i) by lia.
    rewrite Nat2Z.id.
    destruct (lookup_lt_is_Some_2 s i Hi) as [x Hx].
    rewrite Hx. f_equal. apply nth_lookup_Some.
    now rewrite lookup_app_l.
  - rewrite !lookup_ge_None_2; [reflexivity | lia |].
    rewrite length_read_from. lia.
Qed.

Lemma odd_byte_bit0 c : c mod 2 = 1 -> Z.land (u8 c) 1 = 1.
Proof.
  intros H. unfold u8. change 1 with (Z.ones 1) at 1.
  rewrite Z.land_ones by lia. change (2 ^ 1) with 2.
  Z.div_mod_to_equations. lia.
Qed.

Lemma lor_1_odd b : Z.lor b 1 mod 2 = 1.
Proof.
  rewrite <- Z.bit0_mod, Z.lor_spec. change (Z.testbit 1 0) with true.
  now rewrite orb_true_r.
Qed.

Lemma long_object_fields bufSize strLen dataPtr :
  length (long_object bufSize strLen dataPtr) = 24%nat /\
  Z.land (byte_at (long_object bufSize strLen dataPtr) 0) 1 = 1 /\
  le64_at (long_object bufSize strLen dataPtr) 8 = u64 strLen /\
  le64_at (long_object bufSize strLen dataPtr) 16 = u64 dataPtr.
Proof.
  split; [reflexivity|]. split; [|split].
  - change (byte_at (long_object bufSize strLen dataPtr) 0)
      with (u8 (Z.shiftr (Z.lor bufSize 1) (8 * Z.of_nat 0))).
    change (8 * Z.of_nat 0) with 0. rewrite Z.shiftr_0_r.
    apply odd_byte_bit0, lor_1_odd.
  - apply le64_at_put64. intros k Hk.
    do 8 (destruct k as [|k]; [reflexivity|]). lia.
  - apply le64_at_put64. intros k Hk.
    do 8 (destruct k as [|k]; [reflexivity|]). lia.
Qed.

Lemma WriteSSO_long e addr s :
  let n := Z.of_nat (length s) in
  22 < n <= 4096 -> 0x1000 <= addr ->
  mapped_range (regions e) addr 24 = true ->
  heap_inv e -> heapPtr e + sso_buf_size n < HeapBase + HeapSize ->
  mapped_range (regions e) (heapPtr e) (n + 1) = true ->
  addr + 24 <= heapPtr e \/ heapPtr e + n + 1 <= addr ->
  exists e', WriteSSOString e addr s = Done (e', true) /\
             ReadSSOString e' addr = Some s /\
             Z.land (mem e' addr) 1 = 1 /\
             GetSSODataPtr e' addr = heapPtr e /\
             heapPtr e' = heapPtr e + sso_buf_size n.
Proof.
  intros n Hn Haddr Hmap Hinv Hroom Hbuf Hdisj.
  pose proof Hinv as [Hheap Halign]. unfold HeapBase, HeapSize in *.
  assert (HB : 16 * ((n + 16) / 16) = sso_buf_size n) by reflexivity.
  assert (HBr : n + 1 <= sso_buf_size n <= n + 16 /\ sso_buf_size n mod 16 = 0).
  { rewrite <- HB. split; [Z.div_mod_to_equations; lia|].
    rewrite Z.mul_comm. apply Z.mod_mul. lia. }
  destruct HBr as [HBr HBm].
  unfold WriteSSOString, SSOMaxLen. fold n.
  replace (n <=? 22) with false by (symmetry; apply Z.leb_gt; lia).
  assert (Hsz : Z.land (u64 (u64 (n + 1) + 15)) not15 = sso_buf_size n).
  { unfold u64. rewrite (Z.mod_small (n + 1)) by lia.
    rewrite Z.mod_small by lia. rewrite land_not15 by lia.
    rewrite <- HB. do 2 f_equal. lia. }
  rewrite Hsz.
  pose proof (Malloc_without_wrap e (sso_buf_size n) Hinv ltac:(lia)) as HM.
  cbv zeta in HM.
  assert (Hrd : 16 * ((sso_buf_size n + 15) / 16) = sso_buf_size n)
    by (Z.div_mod_to_equations; lia).
  rewrite Hrd in HM.
  destruct (Malloc e (sso_buf_size n)) as [[dataPtr e1]|msg];
    [|unfold HeapBase, HeapSize in HM; lia].
  destruct HM as (Hptr & _ & _ & _ & Hhp & _ & _ & Hmem1 & Hreg1).
  subst dataPtr. cbn [mbind outcome_bind].
  fold (long_object (sso_buf_size n) n (heapPtr e)).
  destruct (long_object_fields (sso_buf_size n) n (heapPtr e))
    as (Hlen & Hbit & Hl8 & Hl16).
  set (obj := long_object (sso_buf_size n) n (heapPtr e)) in *.
  unfold MemWrite at 1. rewrite Hreg1, length_app.
  replace (Z.of_nat (length s + length [0])) with (n + 1)
    by (cbn [length]; lia).
  rewrite Hbuf.
  unfold MemWrite. cbn [regions with_mem]. rewrite Hreg1, Hlen.
  change (Z.of_nat 24) with 24. rewrite Hmap.
  eexists. split; [reflexivity|].
  rewrite Hmem1.
  set (m2 := write_bytes (write_bytes (mem e) (heapPtr e) (s ++ [0])) addr obj).
  assert (Hobj : read_bytes m2 addr 24 = obj).
  { pose proof (read_bytes_write_same
                  (write_bytes (mem e) (heapPtr e) (s ++ [0])) addr obj) as H.
    now rewrite Hlen in H. }
  assert (Hfalse : (addr =? 0) || (addr <? 4096) = false)
    by (apply orb_false_intro; [apply Z.eqb_neq | apply Z.ltb_ge]; lia).
  assert (Hu : u64 (heapPtr e) = heapPtr e)
    by (unfold u64; apply Z.mod_small; lia).
  assert (Hun : u64 n = n) by (unfold u64; apply Z.mod_small; lia).
  match goal with
  | |- ReadSSOString ?E _ = _ /\ _ =>
    assert (Hr3 : regions E = regions e) by exact Hreg1;
    assert (Hm3 : mem E = m2) by reflexivity;
    assert (Hh3 : heapPtr E = heapPtr e + sso_buf_size n) by exact Hhp;
    revert Hr3 Hm3 Hh3; generalize E
  end.
  intros e3 Hr3 Hm3 Hh3.
  split; [|split; [|split; [|exact Hh3]]].
  - unfold ReadSSOString, SSOObjSize. rewrite Hfalse.
    unfold MemRead. rewrite Hr3, Hmap, Hm3.
    cbn [mbind option_bind]. rewrite Hobj, Hlen.
    change (24 <? Z.to_nat 24)%nat with false. cbv iota.
    rewrite Hbit, Hl8, Hl16, Hun, Hu. change (1 =? 1) with true. cbv iota.
    replace ((n >? 4096) || (heapPtr e <? 4096)) with false
      by (symmetry; apply orb_false_intro;
          [rewrite Z.gtb_ltb; apply Z.ltb_ge | apply Z.ltb_ge]; lia).
    rewrite (mapped_range_sub _ _ _ (heapPtr e) n Hbuf) by lia.
    f_equal. unfold m2.
    rewrite read_bytes_write_disjoint by (rewrite Hlen; lia).
    apply read_bytes_write_prefix.
  - rewrite Hm3. unfold m2, write_bytes at 1. rewrite Hlen.
    replace ((addr <=? addr) && (addr <? addr + Z.of_nat 24)) with true
      by (symmetry; apply andb_true_intro; split;
          [apply Z.leb_le | apply Z.ltb_lt]; lia).
    rewrite Z.sub_diag. exact Hbit.
  - unfold GetSSODataPtr, SSOObjSize. rewrite Hfalse.
    unfold MemRead. rewrite Hr3, Hmap, Hm3, Hobj.
    rewrite Hbit, Hl16. change (1 =? 1) with true. cbv iota. exact Hu.
Qed.

(** C8 (amended).  For every string [s] of at most 4096 bytes and every
    address that can hold the object ([sso_slot_ok]), [WriteSSOString]
    succeeds and [ReadSSOString] at the same address returns exactly [s];
    bit 0 of byte 0 of the written object is clear iff [len(s) <= 22], and
    for a longer string the data pointer is the heap address the allocator
    returned. *)
Theorem SSO_round_trip (e : Emulator) (addr : Z) (s : list Z) :
  let n := Z.of_nat (length s) in
  n <= 4096 -> sso_slot_ok e addr n ->
  exists e', WriteSSOString e addr s = Done (e', true) /\
             ReadSSOString e' addr = Some s /\
             Z.land (mem e' addr) 1 = (if n <=? 22 then 0 else 1) /\
             (22 < n -> GetSSODataPtr e' addr = heapPtr e /\
                        HeapBase <= heapPtr e < HeapBase + HeapSize).
Proof.
  intros n Hn (Haddr & Hmap & Hlong).
  destruct (Z.leb_spec n 22) as [Hshort|Hgt].
  - destruct (WriteSSO_short e addr s ltac:(lia) Haddr Hmap)
      as (e' & Hw & Hr & Hb & _).
    exists e'. split; [exact Hw|]. split; [exact Hr|]. split; [exact Hb|]. lia.
  - destruct (Hlong Hgt) as (Hinv & Hroom & Hbuf & Hdisj).
    destruct (WriteSSO_long e addr s ltac:(fold n; lia) Haddr Hmap Hinv Hroom
                Hbuf Hdisj) as (e' & Hw & Hr & Hb & Hp & _).
    exists e'. split; [exact Hw|]. split; [exact Hr|]. split; [exact Hb|].
    intros _. split; [exact Hp | apply Hinv].
Qed.

Lemma New_slot_ok :
  sso_slot_ok (default fresh New) (StackBase + 0x100) 30.
Proof.
  assert (H : mapped_range (regions (default fresh New)) (StackBase + 0x100) 24
              = true /\
              heapPtr (default fresh New) = HeapBase /\
              mapped_range (regions (default fresh New)) HeapBase 31 = true).
  { vm_compute. split; [reflexivity|]. split; reflexivity. }
  destruct H as (H1 & H2 & H3).
  generalize dependent (default fresh New). intros e0 H1 H2 H3.
  unfold sso_slot_ok, heap_inv. rewrite H2.
  split; [vm_compute; discriminate|]. split; [exact H1|]. intros _.
  split; [split; [split; vm_compute; [discriminate | reflexivity]
                 | reflexivity]|].
  split; [vm_compute; reflexivity|]. split; [exact H3|].
  left. vm_compute. discriminate.
Qed.

(** The theorem for a 30-byte string written to the stack of the emulator
    [New] returns. *)
Lemma SSO_round_trip_witness :
  exists e', WriteSSOString (default fresh New) (StackBase + 0x100)
                            (replicate 30 65) = Done (e', true) /\
             ReadSSOString e' (StackBase + 0x100) = Some (replicate 30 65) /\
             Z.land (mem e' (StackBase + 0x100)) 1 = 1 /\
             (22 < 30 -> GetSSODataPtr e' (StackBase + 0x100)
                         = heapPtr (default fresh New) /\
                         HeapBase <= heapPtr (default fresh New)
                                  < HeapBase + HeapSize).
Proof.
  apply (SSO_round_trip (default fresh New) (StackBase + 0x100)
           (replicate 30 65)).
  - vm_compute. discriminate.
  - exact New_slot_ok.
Defined.

(** C8 (counterexample).  On the emulator [New] returns, the first free
    heap address is mapped and writable, the write of a 23-byte string
    there succeeds, and the read returns the first 23 bytes of the object
    header instead of the string: the object was written over the
    character buffer the allocator had just handed out. *)
Lemma SSO_round_trip_fails_on_free_heap :
  match New with
  | Some e =>
    mapped_range (regions e) HeapBase 24 = true /\
    match WriteSSOString e HeapBase (replicate 23 65) with
    | Done (e', ok) =>
      ok = true /\
      ReadSSOString e' HeapBase = Some (take 23 (long_object 32 23 HeapBase)) /\
      ReadSSOString e' HeapBase <> Some (replicate 23 65)
    | Panicked _ => False
    end
  | None => False
  end.
Proof.
  vm_compute. split; [reflexivity|]. split; [reflexivity|].
  split; [reflexivity | discriminate].
Qed.

End SSOCodec.

(** ** Entry-point selection *)

Section EntryPoint.
Import Emu Elf GoStrings Obs.

Lemma pick_best_least_first first rest :
  least_first (pick_best first rest) (first :: rest).
Proof.
  induction rest as [|x rest IH] using rev_ind.
  - exists [], []. split; [reflexivity|].
    split; intros c' Hc'; now apply elem_of_nil in Hc'.
  - unfold pick_best in *. rewrite foldl_snoc.
    destruct IH as (l1 & l2 & Heq & H1 & H2).
    set (b := foldl _ first rest) in *.
    destruct (Z.ltb_spec (c_priority x) (c_priority b)) as [Hlt|Hge].
    + exists (first :: rest), []. split; [reflexivity|]. split.
      * intros c' Hc'. rewrite Heq in Hc'.
        apply elem_of_app in Hc' as [Hc'|Hc'].
        -- specialize (H1 c' Hc'). lia.
        -- apply elem_of_cons in Hc' as [->|Hc']; [lia|].
           specialize (H2 c' Hc'). lia.
      * intros c' Hc'. now apply elem_of_nil in Hc'.
    + exists l1, (l2 ++ [x]). split.
      * rewrite app_comm_cons, Heq. now rewrite <- app_assoc.
      * split; [exact H1|]. intros c' Hc'.
        apply elem_of_app in Hc' as [Hc'|Hc']; [now apply H2|].
        apply list_elem_of_singleton in Hc' as ->. lia.
Qed.

(** A symbol that folds to [JNI_OnLoad] at a non-null address is a
    candidate (of priority 7). *)
Lemma classify_JNI_OnLoad name addr :
  EqualFold name "JNI_OnLoad" = true -> addr <> 0 ->
  classify name addr = Some (mkCandidate name addr 7).
Proof.
  intros Hf Ha. unfold classify.
  replace (addr =? 0) with false by (symmetry; now apply Z.eqb_neq).
  rewrite Hf. unfold EqualFold in Hf. apply String.eqb_eq in Hf.
  rewrite Hf. reflexivity.
Qed.

Lemma no_candidates_no_JNI_OnLoad info order_cand order_jni :
  range_of (Symbols info) order_cand -> range_of (Symbols info) order_jni ->
  candidates order_cand = [] ->
  FindJNIOnLoad info order_jni = 0.
Proof.
  intros Hc Hj Hnil.
  assert (Hnone : forall name addr,
             Symbols info !! name = Some addr ->
             EqualFold name "JNI_OnLoad" = true -> addr = 0).
  { intros name addr Hl Hf. destruct (decide (addr = 0)) as [|Hne]; [assumption|].
    exfalso.
    assert (Hin : mkCandidate name addr 7 ∈ candidates order_cand).
    { apply list_elem_of_omap. exists (name, addr). split.
      - unfold range_of in Hc. rewrite Hc. now apply elem_of_map_to_list.
      - now apply classify_JNI_OnLoad. }
    rewrite Hnil in Hin. now apply elem_of_nil in Hin. }
  unfold FindJNIOnLoad, FindSymbol.
  destruct (Symbols info !! "JNI_OnLoad") as [a|] eqn:E; cbn [default].
  - rewrite (Hnone _ _ E eq_refl). cbn [Z.eqb negb].
    unfold first_match.
    destruct (find _ order_jni) as [[name addr]|] eqn:F; [|reflexivity].
    apply find_some in F as [Hin Hf]. cbn [fmap option_fmap option_map default snd].
    apply list_elem_of_In in Hin. unfold range_of in Hj. rewrite Hj in Hin.
    apply elem_of_map_to_list in Hin. now apply (Hnone name).
  - cbn [Z.eqb negb]. unfold first_match.
    destruct (find _ order_jni) as [[name addr]|] eqn:F; [|reflexivity].
    apply find_some in F as [Hin Hf]. cbn [fmap option_fmap option_map default snd].
    apply list_elem_of_In in Hin. unfold range_of in Hj. rewrite Hj in Hin.
    apply elem_of_map_to_list in Hin. now apply (Hnone name).
Qed.

Lemma existsb_find {A} (P : A -> bool) l :
  existsb P l = match find P l with Some _ => true | None => false end.
Proof.
  induction l as [|x l IH]; simpl; [reflexivity|].
  destruct (P x); [reflexivity | exact IH].
Qed.

Lemma existsb_Permutation {A} (P : A -> bool) (l l' : list A) :
  l ≡ₚ l' -> existsb P l = existsb P l'.
Proof.
  induction 1 as [|x l l' _ IH|x y l|l1 l2 l3 _ IH1 _ IH2]; simpl.
  - reflexivity.
  - now rewrite IH.
  - now rewrite !orb_assoc, (orb_comm (P y)).
  - congruence.
Qed.

Lemma forallb_Permutation {A} (P : A -> bool) (l l' : list A) :
  l ≡ₚ l' -> forallb P l = forallb P l'.
Proof.
  induction 1 as [|x l l' _ IH|x y l|l1 l2 l3 _ IH1 _ IH2]; simpl.
  - reflexivity.
  - now rewrite IH.
  - now rewrite !andb_assoc, (andb_comm (P y)).
  - congruence.
Qed.

Lemma find_first {A} (P : A -> bool) k1 x k2 :
  (forall y, y ∈ k1 -> P y = false) -> P x = true ->
  find P (k1 ++ x :: k2) = Some x.
Proof.
  induction k1 as [|y k1 IH]; intros Hk Hx; simpl.
  - now rewrite Hx.
  - rewrite (Hk y) by (apply elem_of_cons; now left).
    apply IH; [|exact Hx]. intros z Hz. apply Hk. apply elem_of_cons. now right.
Qed.

Lemma find_elem {A} (P : A -> bool) l x :
  find P l = Some x -> x ∈ l /\ P x = true.
Proof.
  intros H. apply find_some in H as [H1 H2]. split; [|exact H2].
  now apply list_elem_of_In.
Qed.

Lemma find_None {A} (P : A -> bool) l :
  find P l = None -> forall x, x ∈ l -> P x = false.
Proof.
  intros H x Hx. apply (find_none P l H). now apply list_elem_of_In.
Qed.

Lemma omap_split {A B} (f : A -> option B) l l1 c l2 :
  omap f l = l1 ++ c :: l2 ->
  exists k1 x k2, l = k1 ++ x :: k2 /\ omap f k1 = l1 /\ f x = Some c /\
                  omap f k2 = l2.
Proof.
  revert l1. induction l as [|y l IH]; intros l1 H.
  - now destruct l1.
  - change (omap f (y :: l))
      with (match f y with Some b => b :: omap f l | None => omap f l end) in H.
    destruct (f y) as [b|] eqn:Hy.
    + destruct l1 as [|b1 l1].
      * change ([] ++ c :: l2) with (c :: l2) in H.
        injection H as -> Hl. exists [], y, l. repeat split; assumption.
      * change ((b1 :: l1) ++ c :: l2) with (b1 :: (l1 ++ c :: l2)) in H.
        injection H as -> Hl.
        destruct (IH l1 Hl) as (k1 & x & k2 & -> & E1 & E2 & E3).
        exists (y :: k1), x, k2. repeat split; try assumption.
        change (omap f (y :: k1))
          with (match f y with Some b => b :: omap f k1 | None => omap f k1 end).
        now rewrite Hy, E1.
    + destruct (IH l1 H) as (k1 & x & k2 & -> & E1 & E2 & E3).
      exists (y :: k1), x, k2. repeat split; try assumption.
      change (omap f (y :: k1))
        with (match f y with Some b => b :: omap f k1 | None => omap f k1 end).
      now rewrite Hy.
Qed.

(** The candidate loop assigns the priority numbers of the table. *)
Lemma classify_table name addr :
  classify name addr
  = if addr =? 0 then None
    else mkCandidate name addr <$> table_priority name.
Proof.
  unfold classify, table_priority.
  destruct (addr =? 0); [reflexivity|].
  cbv zeta. unfold excluded, excluded_patterns. cbn [existsb].
  rewrite orb_false_r, !orb_assoc.
  match goal with |- context [if ?c then None else _] => destruct c end;
    [reflexivity|].
  unfold pattern_table, EqualFold.
  change (ToLower "JNI_OnLoad") with "jni_onload"%string.
  cbn [find fst snd].
  repeat match goal with
         | |- (if ?c then _ else _) = _ =>
           destruct c; cbn [fmap option_fmap option_map snd]; [reflexivity|]
         end.
  reflexivity.
Qed.

Lemma classify_Some name addr c :
  classify name addr = Some c ->
  c_name c = name /\ c_addr c = addr /\ addr <> 0 /\
  table_priority name = Some (c_priority c).
Proof.
  rewrite classify_table. destruct (Z.eqb_spec addr 0); [discriminate|].
  destruct (table_priority name) as [p|]; [|discriminate].
  intros [= <-]. repeat split; assumption.
Qed.

Lemma classify_None name addr :
  classify name addr = None -> addr = 0 \/ table_priority name = None.
Proof.
  rewrite classify_table. destruct (Z.eqb_spec addr 0); [now left|].
  destruct (table_priority name); [discriminate | now right].
Qed.

Lemma least_symbol_spec info order kv :
  range_of (Symbols info) order ->
  least_symbol info kv = true <->
  exists p, table_priority kv.1 = Some p /\ kv.2 <> 0 /\
            forall kv' p', kv' ∈ order -> table_priority kv'.1 = Some p' ->
                           kv'.2 <> 0 -> p <= p'.
Proof.
  intros Hr. unfold least_symbol, range_of in *.
  destruct (table_priority kv.1) as [p|]; [|split; [discriminate|]].
  - rewrite <- (forallb_Permutation _ _ _ Hr).
    rewrite andb_true_iff, negb_true_iff, Z.eqb_neq, forallb_forall. split.
    + intros [Hnz Hall]. exists p. split; [reflexivity|]. split; [exact Hnz|].
      intros kv' p' Hin Hp Hnz'. apply list_elem_of_In in Hin.
      specialize (Hall kv' Hin). rewrite Hp in Hall.
      apply orb_true_iff in Hall as [Hz|Hle];
        [apply Z.eqb_eq in Hz; contradiction | now apply Z.leb_le].
    + intros (q & [= <-] & Hnz & Hall). split; [exact Hnz|].
      intros kv' Hin. apply list_elem_of_In in Hin.
      destruct (table_priority kv'.1) as [p'|] eqn:Hp; [|reflexivity].
      destruct (Z.eqb_spec kv'.2 0); [reflexivity|]. cbn [orb].
      apply Z.leb_le. now apply (Hall kv' p').
  - intros (p & Hp & _). discriminate.
Qed.

(** The candidate scan returns the first least symbol of its range. *)
Lemma candidate_scan info o :
  orders_of info o ->
  match candidates (ord_cand o) with
  | first :: rest => c_addr (pick_best first rest)
  | [] =>
    let addr := FindJNIOnLoad info (ord_jni o) in
    if negb (addr =? 0) then addr else Entry info
  end
  = match find (least_symbol info) (ord_cand o) with
    | Some kv => kv.2
    | None => Entry info
    end.
Proof.
  intros (_ & _ & Hc & Hj).
  destruct (candidates (ord_cand o)) as [|first rest] eqn:E.
  - rewrite (no_candidates_no_JNI_OnLoad info (ord_cand o) (ord_jni o) Hc Hj E).
    cbn [Z.eqb negb].
    destruct (find (least_symbol info) (ord_cand o)) as [kv|] eqn:F;
      [|reflexivity].
    exfalso. apply find_elem in F as [Hin Hl].
    apply (least_symbol_spec info (ord_cand o) kv Hc) in Hl
      as (p & Hp & Hnz & _).
    assert (Hcl : classify kv.1 kv.2 ∈ Some <$> candidates (ord_cand o) \/ True)
      by now right.
    clear Hcl.
    assert (Hin' : mkCandidate kv.1 kv.2 p ∈ candidates (ord_cand o)).
    { apply list_elem_of_omap. exists kv. split; [exact Hin|].
      rewrite classify_table.
      replace (kv.2 =? 0) with false by (symmetry; now apply Z.eqb_neq).
      now rewrite Hp. }
    rewrite E in Hin'. now apply elem_of_nil in Hin'.
  - destruct (pick_best_least_first first rest) as (l1 & l2 & Heq & H1 & H2).
    set (c := pick_best first rest) in *.
    rewrite <- E in Heq. unfold candidates in Heq.
    apply omap_split in Heq as (k1 & x & k2 & Hord & E1 & Ex & E2).
    apply classify_Some in Ex as (_ & Haddr & Hnz & Hp).
    assert (Hmem : forall kv p', kv ∈ ord_cand o ->
              table_priority kv.1 = Some p' -> kv.2 <> 0 ->
              mkCandidate kv.1 kv.2 p' ∈ l1 \/ p' = c_priority c \/
              mkCandidate kv.1 kv.2 p' ∈ l2).
    { intros kv p' Hin Hp' Hnz'.
      assert (Hcl : classify kv.1 kv.2 = Some (mkCandidate kv.1 kv.2 p')).
      { rewrite classify_table.
        replace (kv.2 =? 0) with false by (symmetry; now apply Z.eqb_neq).
        now rewrite Hp'. }
      rewrite Hord in Hin. apply elem_of_app in Hin as [Hin|Hin].
      - left. rewrite <- E1. apply list_elem_of_omap. now exists kv.
      - apply elem_of_cons in Hin as [->|Hin].
        + right. left. rewrite Hp in Hp'. now injection Hp'.
        + right. right. rewrite <- E2. apply list_elem_of_omap. now exists kv. }
    rewrite Hord at 1. rewrite (find_first (least_symbol info) k1 x k2).
    + now rewrite Haddr.
    + intros y Hy. destruct (least_symbol info y) eqn:Hl; [|reflexivity].
      exfalso.
      apply (least_symbol_spec info (ord_cand o) y Hc) in Hl
        as (p & Hpy & Hnzy & Hall).
      assert (Hyl : mkCandidate y.1 y.2 p ∈ l1).
      { rewrite <- E1. apply list_elem_of_omap. exists y. split; [exact Hy|].
        rewrite classify_table.
        replace (y.2 =? 0) with false by (symmetry; now apply Z.eqb_neq).
        now rewrite Hpy. }
      specialize (H1 _ Hyl). cbn [c_priority] in H1.
      assert (Hx : x ∈ ord_cand o)
        by (rewrite Hord; apply elem_of_app; right; apply elem_of_cons; now left).
      specialize (Hall x (c_priority c) Hx Hp Hnz). lia.
    + apply (least_symbol_spec info (ord_cand o) x Hc).
      exists (c_priority c). split; [exact Hp|].
      split; [exact Hnz|].
      intros kv' p' Hin Hp' Hnz'.
      destruct (Hmem kv' p' Hin Hp' Hnz') as [Hl | [-> | Hl]].
      * specialize (H1 _ Hl). cbn [c_priority] in H1. lia.
      * lia.
      * specialize (H2 _ Hl). cbn [c_priority] in H2. lia.
Qed.

Lemma first_match_find p order :
  first_match p order = snd <$> find (fun kv => p kv.1) order.
Proof. reflexivity. Qed.

(** [FindEntryPoint] returns the first symbol of the deciding stage. *)
Lemma FindEntryPoint_selected info o preferredEntry :
  orders_of info o ->
  FindEntryPoint info o preferredEntry = selected info preferredEntry o.
Proof.
  intros Ho. pose proof Ho as (Hf & Hs & Hc & Hj).
  pose proof (candidate_scan info o Ho) as Hscan.
  unfold FindEntryPoint, preferred_match, selected, stage_order, decides.
  unfold stage_of.
  destruct (String.eqb preferredEntry "") eqn:Hempty; [exact Hscan|].
  destruct (Z.eqb_spec (FindSymbol info preferredEntry) 0) as [Hz|Hnz];
    cbn [negb].
  - rewrite !first_match_find.
    destruct (existsb (fun kv => EqualFold kv.1 preferredEntry)
                      (map_to_list (Symbols info))) eqn:E1.
    + rewrite <- (existsb_Permutation _ _ _ Hf), existsb_find in E1.
      destruct (find (fun kv => EqualFold kv.1 preferredEntry) (ord_fold o))
        as [kv|]; [reflexivity | discriminate].
    + rewrite <- (existsb_Permutation _ _ _ Hf), existsb_find in E1.
      destruct (find (fun kv => EqualFold kv.1 preferredEntry) (ord_fold o))
        as [kv|]; [discriminate|]. cbn [fmap option_fmap option_map].
      destruct (existsb (fun kv => Contains (ToLower kv.1)
                                            (ToLower preferredEntry))
                        (map_to_list (Symbols info))) eqn:E2.
      * rewrite <- (existsb_Permutation _ _ _ Hs), existsb_find in E2.
        destruct (find (fun kv => Contains (ToLower kv.1)
                                           (ToLower preferredEntry))
                       (ord_substr o))
          as [kv|]; [reflexivity | discriminate].
      * rewrite <- (existsb_Permutation _ _ _ Hs), existsb_find in E2.
        destruct (find (fun kv => Contains (ToLower kv.1)
                                           (ToLower preferredEntry))
                       (ord_substr o))
          as [kv|]; [discriminate|]. cbn [fmap option_fmap option_map].
        exact Hscan.
  - unfold FindSymbol in *.
    destruct (Symbols info !! preferredEntry) as [a|] eqn:Ha;
      cbn [default] in *; [|contradiction].
    assert (Hin : (preferredEntry, a) ∈ ord_fold o)
      by (unfold range_of in Hf; rewrite Hf; now apply elem_of_map_to_list).
    destruct (find (fun kv => String.eqb kv.1 preferredEntry) (ord_fold o))
      as [kv|] eqn:F.
    + apply find_elem in F as [Hkv Heq]. apply String.eqb_eq in Heq.
      unfold range_of in Hf. rewrite Hf in Hkv.
      destruct kv as [n b]. cbn [fst snd] in *. subst n.
      apply elem_of_map_to_list in Hkv. unfold id. congruence.
    + apply find_None with (x := (preferredEntry, a)) in F; [|exact Hin].
      cbn [fst] in F. now rewrite String.eqb_refl in F.
Qed.

Lemma stage_order_range info preferredEntry o :
  orders_of info o ->
  range_of (Symbols info) (stage_order info preferredEntry o).
Proof.
  intros (Hf & Hs & Hc & Hj). unfold stage_order.
  destruct (stage_of info preferredEntry); assumption.
Qed.

Lemma stage_order_same info preferredEntry l :
  stage_order info preferredEntry (same_order l) = l.
Proof. unfold stage_order. now destruct (stage_of info preferredEntry). Qed.

(** C4 (amended).  For a symbol table with ASCII names and an ASCII hint.
    The candidate loop gives a symbol with a non-null address the
    priority number of the first row of the section 4.11 table that its
    lowered name matches, and drops the excluded names.  In every run
    [FindEntryPoint] returns the address of the first symbol, in the
    order in which that run ranges over the symbol map, that the deciding
    stage accepts: the exact name if its address is non-null, else the
    names equal to the hint up to case, else the names that contain it up
    to case, else (and for the empty hint) the candidates with the least
    priority number; the ELF entry if there is none.  The order of a
    range over a Go map is not fixed, so two runs return the same address
    if and only if all symbols the deciding stage accepts have the same
    address. *)
Theorem FindEntryPoint_selection (info : ELFInfo) (preferredEntry : string) :
  ascii_symbols info -> is_ascii preferredEntry = true ->
  (forall name addr,
     classify name addr
     = if addr =? 0 then None
       else mkCandidate name addr <$> table_priority name) /\
  (forall o, orders_of info o ->
     FindEntryPoint info o preferredEntry = selected info preferredEntry o) /\
  ((forall o1 o2, orders_of info o1 -> orders_of info o2 ->
      FindEntryPoint info o1 preferredEntry
      = FindEntryPoint info o2 preferredEntry)
   <-> unambiguous info preferredEntry).
Proof.
  intros _ _. split; [exact classify_table|].
  split; [intros o; apply FindEntryPoint_selected|]. split.
  - intros Hsame n1 a1 n2 a2 H1 H2 D1 D2.
    assert (Hrun : forall n a, Symbols info !! n = Some a ->
              decides info preferredEntry (n, a) = true ->
              exists o, orders_of info o /\
                        FindEntryPoint info o preferredEntry = a).
    { intros n a Hl Hd.
      apply elem_of_map_to_list in Hl.
      apply elem_of_Permutation in Hl as [k Hk].
      exists (same_order ((n, a) :: k)). split.
      - unfold orders_of, range_of, same_order. cbn [ord_fold ord_substr ord_cand ord_jni].
        repeat split; now symmetry.
      - rewrite FindEntryPoint_selected.
        + unfold selected. rewrite stage_order_same. cbn [find]. now rewrite Hd.
        + unfold orders_of, range_of, same_order. cbn [ord_fold ord_substr ord_cand ord_jni].
          repeat split; now symmetry. }
    destruct (Hrun n1 a1 H1 D1) as (o1 & Ho1 & <-).
    destruct (Hrun n2 a2 H2 D2) as (o2 & Ho2 & <-).
    now apply Hsame.
  - intros Hun o1 o2 Ho1 Ho2.
    rewrite !FindEntryPoint_selected by assumption. unfold selected.
    pose proof (stage_order_range info preferredEntry o1 Ho1) as R1.
    pose proof (stage_order_range info preferredEntry o2 Ho2) as R2.
    assert (Hex : existsb (decides info preferredEntry)
                          (stage_order info preferredEntry o1)
                  = existsb (decides info preferredEntry)
                            (stage_order info preferredEntry o2)).
    { apply existsb_Permutation. unfold range_of in *. now rewrite R1, R2. }
    rewrite !existsb_find in Hex.
    destruct (find _ (stage_order info preferredEntry o1)) as [[n1 a1]|] eqn:F1;
      destruct (find _ (stage_order info preferredEntry o2)) as [[n2 a2]|] eqn:F2;
      try discriminate; [|reflexivity].
    apply find_elem in F1 as [I1 D1]. apply find_elem in F2 as [I2 D2].
    unfold range_of in *. rewrite R1 in I1. rewrite R2 in I2.
    apply elem_of_map_to_list in I1, I2. cbn [snd].
    now apply (Hun n1 a1 n2 a2).
Qed.

Ltac range_tac :=
  unfold range_of; vm_compute; first [reflexivity | apply perm_swap].

Ltac orders_tac := repeat split; range_tac.

Ltac table_tac H :=
  apply elem_of_map_to_list in H; vm_compute in H;
  repeat (apply elem_of_cons in H as [H|H]; [injection H as -> ->|]);
  [..|now apply elem_of_nil in H].

(** The theorem at a table with one [regist_lua] function and
    [JNI_OnLoad]: the priority stage accepts the [regist_lua] function
    only, so every run returns its address. *)
Lemma FindEntryPoint_selection_witness :
  ascii_symbols lua_jni /\ is_ascii "" = true /\
  orders_of lua_jni lua_then_jni /\ orders_of lua_jni jni_then_lua /\
  FindEntryPoint lua_jni lua_then_jni "" = 0x1000 /\
  FindEntryPoint lua_jni jni_then_lua "" = 0x1000 /\
  unambiguous lua_jni "".
Proof.
  assert (Ha : ascii_symbols lua_jni).
  { intros name addr H. table_tac H; reflexivity. }
  assert (H1 : orders_of lua_jni lua_then_jni) by orders_tac.
  assert (H2 : orders_of lua_jni jni_then_lua) by orders_tac.
  split; [exact Ha|]. split; [reflexivity|].
  split; [exact H1|]. split; [exact H2|].
  destruct (FindEntryPoint_selection lua_jni "" Ha eq_refl)
    as (_ & Hsel & Hiff).
  split; [rewrite (Hsel _ H1); reflexivity|].
  split; [rewrite (Hsel _ H2); reflexivity|].
  intros n1 a1 n2 a2 L1 L2 D1 D2.
  table_tac L1; table_tac L2; try reflexivity; vm_compute in D1, D2;
    discriminate.
Defined.

(** C4 (counterexample).  The same table and the same hint give two
    entry points, depending on the order in which the map is ranged
    over: at the priority stage two [regist_lua] functions, at the
    substring stage the hint [regist], at the case-insensitive stage two
    names that differ in case only. *)
Lemma FindEntryPoint_depends_on_range_order :
  orders_of lua_pair lua_ab /\ orders_of lua_pair lua_ba /\
  FindEntryPoint lua_pair lua_ab "" = 0x1000 /\
  FindEntryPoint lua_pair lua_ba "" = 0x2000 /\
  FindEntryPoint lua_pair lua_ab "regist" = 0x1000 /\
  FindEntryPoint lua_pair lua_ba "regist" = 0x2000 /\
  orders_of init_pair init_ab /\ orders_of init_pair init_ba /\
  FindEntryPoint init_pair init_ab "init" = 0x1000 /\
  FindEntryPoint init_pair init_ba "init" = 0x2000.
Proof.
  split; [orders_tac|]. split; [orders_tac|].
  do 4 (split; [reflexivity|]).
  split; [orders_tac|]. split; [orders_tac|]. split; reflexivity.
Qed.

End EntryPoint.

(** ** The allocator and the construction-time hooks, in general *)

Section AllocatorContract.
Import Emu Stubs Obs.

Lemma rounded_40 : 16 * ((40 + 15) / 16) = 48.
Proof. reflexivity. Qed.

(** [Malloc], away from the 64-bit wrap: for a request of at most 2^63
    bytes on an allocator whose pointer is in the heap and 16-aligned, the
    call panics exactly when the rounded block would end at or past the
    end of the heap (a block that would fit exactly is refused too), and
    otherwise returns the old pointer, which is non-null and 16-aligned,
    advances the pointer by the rounded size and touches nothing else. *)
Theorem Malloc_contract (e : Emulator) (size : Z) :
  heap_inv e -> 0 <= size <= 2 ^ 63 ->
  let rounded := 16 * ((size + 15) / 16) in
  (Malloc e size = Panicked "heap exhausted" <->
   HeapBase + HeapSize <= heapPtr e + rounded) /\
  (heapPtr e + rounded < HeapBase + HeapSize ->
   exists e', Malloc e size = Done (heapPtr e, e') /\
              heapPtr e <> 0 /\ heapPtr e mod 16 = 0 /\
              heapPtr e' = heapPtr e + rounded /\
              size <= rounded < size + 16 /\
              heap_inv e' /\ mem e' = mem e /\ regions e' = regions e /\
              regs e' = regs e /\ addrHooks e' = addrHooks e).
Proof.
  intros Hinv Hs rounded.
  pose proof (Malloc_without_wrap e size Hinv Hs) as H. cbv zeta in H.
  fold rounded in H.
  assert (Hr : size <= rounded < size + 16)
    by (unfold rounded; Z.div_mod_to_equations; lia).
  assert (Hfields : forall a e', Malloc e size = Done (a, e') ->
                                 regs e' = regs e /\ addrHooks e' = addrHooks e).
  { unfold Malloc. intros a e'. destruct (_ >=? _); [discriminate|].
    intros [= <- <-]. split; reflexivity. }
  assert (Hmsg : forall msg, Malloc e size = Panicked msg ->
                             msg = "heap exhausted"%string).
  { unfold Malloc. intros msg. destruct (_ >=? _); [|discriminate].
    now intros [= <-]. }
  destruct (Malloc e size) as [[a e']|msg] eqn:E.
  - destruct H as (-> & Hnz & Hrange & Hal & Hp & Hfit & Hinv' & Hm & Hrg).
    destruct Hinv' as [Hinv1 Hinv2]. split.
    + split; [discriminate|]. intros Hge. lia.
    + intros _. exists e'. destruct (Hfields _ _ eq_refl) as [? ?].
      repeat split; try assumption; try lia.
  - split.
    + split; [intros _; exact H|]. intros _. now rewrite (Hmsg msg eq_refl).
    + intros Hlt. lia.
Qed.

Lemma Malloc_contract_witness :
  heap_inv fresh /\ 0 <= 40 <= 2 ^ 63 /\
  exists e', Malloc fresh 40 = Done (heapPtr fresh, e') /\
             heapPtr e' = heapPtr fresh + 16 * ((40 + 15) / 16).
Proof.
  assert (H1 : heap_inv fresh) by (unfold heap_inv; vm_compute; intuition discriminate).
  assert (H2 : 0 <= 40 <= 2 ^ 63) by lia.
  split; [exact H1|]. split; [exact H2|].
  destruct (Malloc_contract fresh 40 H1 H2) as [_ H].
  destruct H as (e' & He & _ & _ & Hp & _); [vm_compute; reflexivity|].
  exists e'. split; [exact He | exact Hp].
Defined.

(** Two allocations in a row never overlap: the second block starts at or
    after the end of the first, both are non-null and 16-aligned. *)
Theorem Malloc_blocks_disjoint (e : Emulator) (size1 size2 : Z) :
  heap_inv e -> 0 <= size1 <= 2 ^ 63 -> 0 <= size2 <= 2 ^ 63 ->
  heapPtr e + 16 * ((size1 + 15) / 16) + 16 * ((size2 + 15) / 16)
    < HeapBase + HeapSize ->
  exists a1 a2,
    malloc_twice e size1 size2 = Done (a1, a2) /\
    a1 + size1 <= a2 /\ a1 <> 0 /\ a2 <> 0 /\
    a1 mod 16 = 0 /\ a2 mod 16 = 0 /\
    HeapBase <= a1 /\ a2 + size2 < HeapBase + HeapSize.
Proof.
  intros Hinv Hs1 Hs2 Hroom.
  assert (0 <= 16 * ((size2 + 15) / 16)) by (Z.div_mod_to_equations; lia).
  pose proof (Malloc_without_wrap e size1 Hinv Hs1) as H1. cbv zeta in H1.
  unfold malloc_twice.
  destruct (Malloc e size1) as [[a1 e1]|msg]; [|lia].
  destruct H1 as (-> & Hnz & Hrange & Hal & Hp & Hfit & Hinv' & _).
  pose proof (Malloc_without_wrap e1 size2 Hinv' Hs2) as H2. cbv zeta in H2.
  cbn [mbind outcome_bind].
  destruct (Malloc e1 size2) as [[a2 e2]|msg]; [|lia].
  destruct H2 as (-> & Hnz2 & Hrange2 & Hal2 & Hp2 & Hfit2 & _).
  cbn [mbind outcome_bind].
  exists (heapPtr e), (heapPtr e1). split; [reflexivity|].
  repeat split; try assumption; lia.
Qed.

Lemma Malloc_blocks_disjoint_witness :
  exists a1 a2,
    malloc_twice fresh 40 24 = Done (a1, a2) /\
    a1 + 40 <= a2 /\ a1 <> 0 /\ a2 <> 0 /\
    a1 mod 16 = 0 /\ a2 mod 16 = 0 /\
    HeapBase <= a1 /\ a2 + 24 < HeapBase + HeapSize.
Proof.
  apply (Malloc_blocks_disjoint fresh 40 24).
  - unfold heap_inv; vm_compute; intuition discriminate.
  - lia.
  - lia.
  - vm_compute; reflexivity.
Defined.

End AllocatorContract.

(** ** Sized accessors and strings in guest memory *)

Section Accessors.
Import Emu Stubs Obs.

Lemma MemWrite_mapped e a data :
  mapped_range (regions e) a (Z.of_nat (length data)) = true ->
  MemWrite e a data = Some (with_mem (write_bytes (mem e) a data) e).
Proof. intros H. unfold MemWrite. now rewrite H. Qed.

Lemma MemWrite__mapped e a data :
  mapped_range (regions e) a (Z.of_nat (length data)) = true ->
  MemWrite_ e a data = with_mem (write_bytes (mem e) a data) e.
Proof. intros H. unfold MemWrite_. now rewrite MemWrite_mapped. Qed.

Lemma MemWrite_unmapped e a data :
  mapped_range (regions e) a (Z.of_nat (length data)) = false ->
  MemWrite e a data = None /\ MemWrite_ e a data = e.
Proof. intros H. unfold MemWrite_, MemWrite. now rewrite H. Qed.

(** Reading inside a block that was just written. *)
Lemma read_from_write_inside m a data (off n : nat) :
  (off + n <= length data)%nat ->
  read_from (write_bytes m a data) n (a + Z.of_nat off)
  = take n (drop off data).
Proof.
  intros Hle. apply list_eq. intros i.
  destruct (decide (i < n)%nat) as [Hi|Hi].
  - rewrite read_from_lookup by assumption. unfold write_bytes.
    replace ((a <=? a + Z.of_nat off + Z.of_nat i)
             && (a + Z.of_nat off + Z.of_nat i <? a + Z.of_nat (length data)))
      with true
      by (symmetry; apply andb_true_intro; split;
          [apply Z.leb_le | apply Z.ltb_lt]; lia).
    replace (a + Z.of_nat off + Z.of_nat i - a) with (Z.of_nat (off + i)) by lia.
    rewrite Nat2Z.id, lookup_take_lt, lookup_drop by assumption.
    destruct (lookup_lt_is_Some_2 data (off + i) ltac:(lia)) as [x Hx].
    rewrite Hx. f_equal. now apply nth_lookup_Some.
  - rewrite !lookup_ge_None_2; [reflexivity | |].
    + rewrite length_take, length_drop. lia.
    + rewrite length_read_from. lia.
Qed.





Lemma until_nul_app s rest :
  Forall (fun b => b <> 0) s -> until_nul (s ++ 0 :: rest) = s.
Proof.
  induction 1 as [|b s Hb _ IH]; simpl; [reflexivity|].
  replace (b =? 0) with false by (symmetry; now apply Z.eqb_neq).
  now rewrite IH.
Qed.

Lemma until_nul_no_nul data : Forall (fun b => b <> 0) (until_nul data).
Proof.
  induction data as [|b data IH]; simpl; [constructor|].
  destruct (Z.eqb_spec b 0); [constructor|]. now constructor.
Qed.

Lemma until_nul_length data : (length (until_nul data) <= length data)%nat.
Proof.
  induction data as [|b data IH]; simpl; [lia|].
  destruct (b =? 0); simpl; lia.
Qed.

(** A string without NUL bytes written by [MemWriteString] is read back
    by [MemReadString] with any larger window, provided the whole window
    of [maxLen] bytes is mapped (the reader fetches all of it before it
    looks for the terminator); and whatever [MemReadString] returns holds
    no NUL byte and at most [maxLen] bytes. *)
Theorem MemWriteString_read_back (e : Emulator) (addr maxLen : Z)
    (s : list Z) :
  Forall (fun b => b <> 0) s -> Z.of_nat (length s) < maxLen ->
  mapped_range (regions e) addr maxLen = true ->
  (exists e', MemWriteString e addr s = Some e' /\
              MemReadString e' addr maxLen = Some s /\
              regs e' = regs e /\ heapPtr e' = heapPtr e) /\
  (forall r, MemReadString e addr maxLen = Some r ->
             Forall (fun b => b <> 0) r /\ Z.of_nat (length r) <= maxLen).
Proof.
  intros Hs Hlen Hm. split.
  - assert (Hw : mapped_range (regions e) addr (Z.of_nat (length (s ++ [0])))
                 = true).
    { apply mapped_range_sub with addr maxLen; [assumption | lia |].
      rewrite length_app. simpl. lia. }
    eexists. split; [unfold MemWriteString; now apply MemWrite_mapped|].
    split; [|split; reflexivity].
    unfold MemReadString, MemRead.
    replace (maxLen <=? 0) with false by (symmetry; apply Z.leb_gt; lia).
    cbn [regions with_mem mem]. rewrite Hm.
    cbn [fmap option_fmap option_map]. f_equal.
    unfold read_bytes.
    set (n := Z.to_nat maxLen).
    set (k := length (s ++ [0])).
    assert (Hk : (k <= n)%nat)
      by (unfold k, n; rewrite length_app; simpl; lia).
    assert (Hsplit : forall m, read_from m n addr
              = read_from m k addr ++ read_from m (n - k) (addr + Z.of_nat k)).
    { intros m. apply list_eq. intros i.
      destruct (decide (i < k)%nat) as [Hi|Hi].
      - rewrite lookup_app_l by (rewrite length_read_from; lia).
        rewrite !read_from_lookup by lia. reflexivity.
      - rewrite lookup_app_r by (rewrite length_read_from; lia).
        rewrite length_read_from.
        destruct (decide (i < n)%nat) as [Hin|Hin].
        + rewrite !read_from_lookup by lia. do 2 f_equal. lia.
        + rewrite !lookup_ge_None_2; [reflexivity | |];
            rewrite length_read_from; lia. }
    rewrite Hsplit. unfold k at 1. rewrite read_from_write_same.
    rewrite <- app_assoc. simpl. now apply until_nul_app.
  - intros r Hr. unfold MemReadString, MemRead in Hr.
    replace (maxLen <=? 0) with false in Hr by (symmetry; apply Z.leb_gt; lia).
    rewrite Hm in Hr. cbn [fmap option_fmap option_map] in Hr.
    injection Hr as <-. split; [apply until_nul_no_nul|].
    pose proof (until_nul_length (read_bytes (mem e) addr maxLen)) as Hl.
    unfold read_bytes in Hl. rewrite length_read_from in Hl.
    unfold read_bytes. lia.
Qed.

Lemma MemWriteString_read_back_witness :
  exists e', MemWriteString (with_regions fixed_regions fresh) HeapBase
               [107; 101; 121] = Some e' /\
             MemReadString e' HeapBase 256 = Some [107; 101; 121] /\
             regs e' = regs (with_regions fixed_regions fresh) /\
             heapPtr e' = heapPtr (with_regions fixed_regions fresh).
Proof.
  apply (MemWriteString_read_back (with_regions fixed_regions fresh) HeapBase
           256 [107; 101; 121]).
  - repeat constructor; discriminate.
  - simpl; lia.
  - vm_compute; reflexivity.
Defined.

End Accessors.

(** ** The construction-time hooks on any state *)

Section ReturnBuffers.
Import Emu Stubs Obs.

Lemma Malloc_fields e size a e' :
  Malloc e size = Done (a, e') ->
  regs e' = regs e /\ addrHooks e' = addrHooks e /\ stopped e' = stopped e.
Proof.
  unfold Malloc. destruct (_ >=? _); [discriminate|].
  intros [= <- <-]. repeat split; reflexivity.
Qed.

Lemma in_stack_bounds x : in_stack x = true -> StackBase <= x < StackBase + StackSize.
Proof.
  unfold in_stack. intros H. apply andb_prop in H as [H1 H2].
  apply Z.leb_le in H1. apply Z.ltb_lt in H2. lia.
Qed.

(** The three writes of the return-buffer branch: what the memory holds
    afterwards. *)
Lemma return_buffer_memory e x8 rep :
  StackBase <= x8 < StackBase + StackSize ->
  HeapBase <= rep -> rep + 48 <= HeapBase + HeapSize ->
  mapped_range (regions e) x8 8 = true ->
  mapped_range (regions e) rep 40 = true ->
  let hdr := PutUint64 0 ++ PutUint64 15 ++ replicate 8 0 in
  let e1 := MemWrite_ e rep hdr in
  let e2 := MemWrite_ e1 (rep + 24) (replicate 16 0) in
  let e3 := MemWrite_ e2 x8 (PutUint64 (rep + 24)) in
  cow_empty_at e3 x8 rep /\
  regs e3 = regs e /\ heapPtr e3 = heapPtr e /\ regions e3 = regions e /\
  addrHooks e3 = addrHooks e /\ stopped e3 = stopped e.
Proof.
  intros Hx Hlo Hhi Hmx Hmr hdr e1 e2 e3.
  unfold HeapBase, HeapSize, StackBase, StackSize in *.
  assert (Hh : mapped_range (regions e) rep (Z.of_nat (length hdr)) = true)
    by (apply mapped_range_sub with rep 40; [assumption | lia |];
        change (Z.of_nat (length hdr)) with 24; lia).
  assert (E1 : e1 = with_mem (write_bytes (mem e) rep hdr) e)
    by (now apply MemWrite__mapped).
  assert (Hd : mapped_range (regions e1) (rep + 24)
                 (Z.of_nat (length (replicate 16 0))) = true)
    by (rewrite E1; cbn [regions with_mem];
        apply mapped_range_sub with rep 40; [assumption | lia |];
        change (Z.of_nat (length (replicate 16 0))) with 16; lia).
  assert (E2 : e2 = with_mem (write_bytes (mem e1) (rep + 24) (replicate 16 0)) e1)
    by (now apply MemWrite__mapped).
  assert (Hp : mapped_range (regions e2) x8
                 (Z.of_nat (length (PutUint64 (rep + 24)))) = true)
    by (rewrite E2, E1; cbn [regions with_mem]; now rewrite length_PutUint64).
  assert (E3 : e3 = with_mem (write_bytes (mem e2) x8 (PutUint64 (rep + 24))) e2)
    by (now apply MemWrite__mapped).
  assert (R3 : regions e3 = regions e) by (rewrite E3, E2, E1; reflexivity).
  assert (M3 : mem e3 = write_bytes (write_bytes (write_bytes (mem e) rep hdr)
                                        (rep + 24) (replicate 16 0))
                                    x8 (PutUint64 (rep + 24)))
    by (rewrite E3, E2, E1; reflexivity).
  assert (Hsub : forall off n, 0 <= off -> 0 <= n -> off + n <= 40 ->
                   mapped_range (regions e3) (rep + off) n = true).
  { intros off n ? ? ?. rewrite R3.
    apply mapped_range_sub with rep 40; [assumption | lia | lia]. }
  (* a read in the header: the two later writes are elsewhere *)
  assert (Hhdr : forall (off n : nat), (off + n <= 24)%nat ->
            read_bytes (mem e3) (rep + Z.of_nat off) (Z.of_nat n)
            = take n (drop off hdr)).
  { intros off n Hle. rewrite M3.
    rewrite read_bytes_write_disjoint
      by (rewrite length_PutUint64; lia).
    rewrite read_bytes_write_disjoint
      by (left; lia).
    unfold read_bytes. rewrite Nat2Z.id.
    apply read_from_write_inside. change (length hdr) with 24%nat. lia. }
  assert (H0 : read_bytes (mem e3) rep 8 = take 8 (drop 0 hdr)).
  { pose proof (Hhdr 0%nat 8%nat ltac:(lia)) as H.
    now rewrite Z.add_0_r in H. }
  pose proof (Hhdr 8%nat 8%nat ltac:(lia)) as H8.
  pose proof (Hhdr 16%nat 8%nat ltac:(lia)) as H16.
  change (Z.of_nat 8) with 8 in H8, H16.
  change (Z.of_nat 16) with 16 in H16.
  pose proof (Hsub 0 8 ltac:(lia) ltac:(lia) ltac:(lia)) as S0.
  rewrite Z.add_0_r in S0.
  pose proof (Hsub 8 8 ltac:(lia) ltac:(lia) ltac:(lia)) as S8.
  pose proof (Hsub 16 8 ltac:(lia) ltac:(lia) ltac:(lia)) as S16.
  pose proof (Hsub 24 16 ltac:(lia) ltac:(lia) ltac:(lia)) as S24.
  split; [|rewrite E3, E2, E1; repeat split; reflexivity].
  unfold cow_empty_at, qword, MemReadU64, MemRead.
  rewrite S0, S8, S16, S24. rewrite R3, Hmx.
  cbn [fmap option_fmap option_map].
  rewrite H0, H8, H16.
  split; [|split; [|split; [|split]]]; f_equal; try reflexivity.
  - rewrite M3.
    pose proof (read_bytes_write_same
                  (write_bytes (write_bytes (mem e) rep hdr) (rep + 24)
                               (replicate 16 0))
                  x8 (PutUint64 (rep + 24))) as H.
    rewrite length_PutUint64 in H. change (Z.of_nat 8) with 8 in H.
    rewrite H, Uint64_PutUint64. unfold u64. apply Z.mod_small. lia.
  - rewrite M3.
    rewrite read_bytes_write_disjoint by (rewrite length_PutUint64; lia).
    exact (read_bytes_write_same (write_bytes (mem e) rep hdr) (rep + 24)
                                 (replicate 16 0)).
Qed.

(** A construction-time vtable or callback stub called with X8 on the
    stack (a return-by-value call) builds an empty copy-on-write string:
    on any state whose allocator is in order and has 48 bytes left, with
    the 8 bytes at X8 and the 40 bytes at the heap pointer mapped, either
    hook returns without stopping, leaves X0 = X8, advances the heap
    pointer by 48 and leaves at X8 an object that points to a zeroed data
    area behind a header with length 0, capacity 15, reference count 0. *)
Theorem return_buffer_hooks_build_empty_string (e : Emulator) :
  heap_inv e -> heapPtr e + 48 < HeapBase + HeapSize ->
  in_stack (X e 8) = true ->
  mapped_range (regions e) (X e 8) 8 = true ->
  mapped_range (regions e) (heapPtr e) 40 = true ->
  forall hook, hook = makeVtableStubHook \/ hook = makeCallbackStubHook ->
  exists e', hook e = Done (e', false) /\
             X e' 0 = X e 8 /\ heapPtr e' = heapPtr e + 48 /\
             cow_empty_at e' (X e 8) (heapPtr e) /\
             stopped e' = stopped e /\ addrHooks e' = addrHooks e.
Proof.
  intros Hinv Hroom Hstack Hmx Hmr hook Hhook.
  pose proof (in_stack_bounds _ Hstack) as Hx.
  pose proof (Malloc_without_wrap e 40 Hinv ltac:(lia)) as HM. cbv zeta in HM.
  rewrite rounded_40 in HM.
  pose proof (Malloc_fields e 40) as HF.
  assert (Hu : u64 (heapPtr e + 24) = heapPtr e + 24).
  { destruct Hinv as [Hin _]. unfold u64. apply Z.mod_small.
    unfold HeapBase, HeapSize in *. lia. }
  destruct Hhook as [-> | ->];
    [unfold makeVtableStubHook | unfold makeCallbackStubHook];
    rewrite Hstack; cbv zeta;
    change (24 + 16) with 40; change (Z.to_nat 16) with 16%nat;
    (destruct (Malloc e 40) as [[a e1]|msg]; [|lia]);
    destruct HM as (-> & Hnz & Hrange & Hal & Hp & Hfit & Hinv' & Hm & Hrg);
    destruct (HF _ _ eq_refl) as (Fr & Fa & Fs);
    cbn [mbind outcome_bind];
    replace (heapPtr e =? 0) with false by (symmetry; now apply Z.eqb_neq);
    rewrite Hu;
    (destruct (return_buffer_memory e1 (X e 8) (heapPtr e) Hx
                ltac:(lia) ltac:(lia)
                ltac:(now rewrite Hrg) ltac:(now rewrite Hrg))
      as (Hcow & Hregs & Hheap & Hregions & Hhooks & Hstopped));
    cbv zeta in Hcow, Hregs, Hheap, Hregions, Hhooks, Hstopped;
    match goal with
    | |- context [SetX ?E 0 (X e 8)] =>
      revert Hcow Hregs Hheap Hregions Hhooks Hstopped; generalize E;
      intros e3 Hcow Hregs Hheap Hregions Hhooks Hstopped
    end;
    (eexists; split; [reflexivity|]);
    rewrite X_SetX by lia;
    destruct (SetX_fields e3 0 (X e 8)) as (Sm & Sh & Ss & Sr & Sa);
    (split; [reflexivity|]);
    (split; [rewrite Sh, Hheap; exact Hp|]);
    (split; [unfold cow_empty_at, qword, MemReadU64, MemRead in *;
             now rewrite Sm, Sr|]);
    rewrite Ss, Sa, Hstopped, Hhooks, Fs, Fa; split; reflexivity.
Qed.

Lemma return_buffer_hooks_build_empty_string_witness :
  let e := SetX (with_regions fixed_regions fresh) 8 (StackBase + 0x100) in
  exists e', makeVtableStubHook e = Done (e', false) /\
             X e' 0 = X e 8 /\ heapPtr e' = heapPtr e + 48 /\
             cow_empty_at e' (X e 8) (heapPtr e) /\
             stopped e' = stopped e /\ addrHooks e' = addrHooks e.
Proof.
  apply (return_buffer_hooks_build_empty_string
           (SetX (with_regions fixed_regions fresh) 8 (StackBase + 0x100))).
  - unfold heap_inv; vm_compute; intuition discriminate.
  - vm_compute; reflexivity.
  - vm_compute; reflexivity.
  - vm_compute; reflexivity.
  - vm_compute; reflexivity.
  - now left.
Defined.

End ReturnBuffers.

(** ** Relocations other than ABS64, and what no relocation touches *)

Section RelocationFrame.
Import Emu Elf GoStrings Obs.

Lemma same_but_memory_refl e : same_but_memory e e.
Proof. repeat split. Qed.

Lemma MemWrite__frame e t data :
  same_but_memory e (MemWrite_ e t data) /\
  forall a, a < t \/ t + Z.of_nat (length data) <= a ->
            mem (MemWrite_ e t data) a = mem e a.
Proof.
  unfold MemWrite_, MemWrite.
  destruct (mapped_range _ _ _); cbn [default].
  - split; [repeat split|]. intros a Ha. unfold id. cbn [mem with_mem].
    unfold write_bytes.
    destruct (Z.leb_spec t a); destruct (Z.ltb_spec a (t + Z.of_nat (length data)));
      simpl; try reflexivity; lia.
  - split; [apply same_but_memory_refl | reflexivity].
Qed.

(** One entry either changes nothing or stores one qword at its target. *)
Lemma applyRelocation_shape relocOffset imports syms e r :
  applyRelocation relocOffset imports syms e r = e \/
  exists v, applyRelocation relocOffset imports syms e r
            = MemWrite_ e (reloc_target relocOffset r) (PutUint64 v).
Proof.
  unfold applyRelocation, reloc_target.
  repeat match goal with
         | |- context [if ?b then _ else _] => destruct b
         | |- context [match ?o with Some _ => _ | None => _ end] => destruct o
         end; eauto.
Qed.

Lemma applyRelocation_frame relocOffset imports syms e r :
  let e' := applyRelocation relocOffset imports syms e r in
  same_but_memory e e' /\
  forall a, a < reloc_target relocOffset r \/
            reloc_target relocOffset r + 8 <= a -> mem e' a = mem e a.
Proof.
  intros e'. subst e'.
  destruct (applyRelocation_shape relocOffset imports syms e r) as [->|[v ->]].
  - split; [apply same_but_memory_refl | reflexivity].
  - pose proof (MemWrite__frame e (reloc_target relocOffset r) (PutUint64 v)) as H.
    now rewrite length_PutUint64 in H.
Qed.

Lemma same_but_memory_trans e1 e2 e3 :
  same_but_memory e1 e2 -> same_but_memory e2 e3 -> same_but_memory e1 e3.
Proof.
  unfold same_but_memory. intros (A1 & A2 & A3 & A4 & A5 & A6)
                                 (B1 & B2 & B3 & B4 & B5 & B6).
  repeat split; congruence.
Qed.

Lemma applyRelocation_fold_frame relocOffset imports syms rs e a :
  (forall r, r ∈ rs -> a < reloc_target relocOffset r \/
                       reloc_target relocOffset r + 8 <= a) ->
  let e' := foldl (applyRelocation relocOffset imports syms) e rs in
  same_but_memory e e' /\ mem e' a = mem e a.
Proof.
  revert e. induction rs as [|r rs IH]; intros e Hrs; simpl.
  - split; [apply same_but_memory_refl | reflexivity].
  - destruct (applyRelocation_frame relocOffset imports syms e r) as [F1 F2].
    cbv zeta in F1, F2.
    destruct (IH (applyRelocation relocOffset imports syms e r)) as [G1 G2].
    { intros r' Hr'. apply Hrs. now apply elem_of_cons; right. }
    cbv zeta in G1, G2. split.
    + now apply same_but_memory_trans with (applyRelocation relocOffset imports syms e r).
    + rewrite G2. apply F2, Hrs. apply elem_of_cons. now left.
Qed.

(** [applyRelocations] changes guest memory only: registers, heap
    pointer, mapped regions and hooks are as before, and a byte that lies
    in the 8-byte target of no entry of the processed sections keeps its
    value. *)
Theorem applyRelocations_frame (e : Emulator) (dynSyms : list Symbol)
    (sections : list (list Z)) (relocOffset : Z) (imports : gmap string Z)
    (a : Z) :
  (forall data r, data ∈ sections -> r ∈ relaEntries (length data) data ->
                  a < reloc_target relocOffset r \/
                  reloc_target relocOffset r + 8 <= a) ->
  let e' := applyRelocations e dynSyms sections relocOffset imports in
  same_but_memory e e' /\ mem e' a = mem e a.
Proof.
  unfold applyRelocations. generalize (symByIndex dynSyms) as syms.
  intros syms. revert e.
  induction sections as [|data sections IH]; intros e Hs; simpl.
  - split; [apply same_but_memory_refl | reflexivity].
  - destruct (applyRelocation_fold_frame relocOffset imports syms
                (relaEntries (length data) data) e a) as [F1 F2].
    { intros r Hr. apply (Hs data); [apply elem_of_cons; now left | exact Hr]. }
    cbv zeta in F1, F2.
    set (e1 := foldl (applyRelocation relocOffset imports syms) e _) in *.
    destruct (IH e1) as [G1 G2].
    { intros d r Hd Hr. apply (Hs d); [apply elem_of_cons; now right | exact Hr]. }
    cbv zeta in G1, G2. split.
    + now apply same_but_memory_trans with e1.
    + now rewrite G2.
Qed.

Lemma applyRelocations_frame_witness :
  let e := with_regions [(0x40000000, 0x1000)] fresh in
  let e' := applyRelocations e [mkSymbol "init" 0x2000]
              [encodeRela (rela 0x10 1 R_AARCH64_ABS64 8)] 0x40000000 ∅ in
  same_but_memory e e' /\ mem e' 0x40000018 = mem e 0x40000018.
Proof.
  apply (applyRelocations_frame (with_regions [(0x40000000, 0x1000)] fresh)
           [mkSymbol "init" 0x2000]
           [encodeRela (rela 0x10 1 R_AARCH64_ABS64 8)] 0x40000000 ∅
           0x40000018).
  intros data r Hd Hr.
  apply list_elem_of_singleton in Hd. subst data.
  vm_compute in Hr. apply list_elem_of_singleton in Hr. subst r.
  right. vm_compute. discriminate.
Defined.

(** [R_AARCH64_RELATIVE], [R_AARCH64_GLOB_DAT] and [R_AARCH64_JUMP_SLOT]
    on a mapped target.  RELATIVE stores [base + addend].  The two GOT
    types ignore the addend: a defined symbol gives [st_value + base]; an
    undefined [__stack_chk_guard] gives the address of the TLS canary and
    an undefined [_ctype_] the address of entry 0 of the ctype table;
    any other undefined symbol, and a symbol index without a dynamic
    symbol, leave the state as it is.  An entry of any other type except
    ABS64 is ignored. *)
Theorem GOT_and_RELATIVE_relocations (relocOffset : Z)
    (imports : gmap string Z) (syms : gmap Z Symbol) (e : Emulator)
    (r : Rela) :
  let relType := Z.land (r_info r) 0xFFFFFFFF in
  let target := reloc_target relocOffset r in
  mapped_range (regions e) target 8 = true ->
  let e' := applyRelocation relocOffset imports syms e r in
  (relType = R_AARCH64_RELATIVE ->
   qword e' target = Some (u64 (relocOffset + r_addend r))) /\
  (relType = R_AARCH64_GLOB_DAT \/ relType = R_AARCH64_JUMP_SLOT ->
   match syms !! Z.shiftr (r_info r) 32 with
   | Some sym =>
     if sym_Value sym =? 0 then
       if String.eqb (sym_Name sym) "__stack_chk_guard"
       then qword e' target = Some (TLSBase + 0x28)
       else if String.eqb (sym_Name sym) "_ctype_"
       then qword e' target = Some (LibcBase + CtypeTableOffset + 1)
       else e' = e
     else qword e' target = Some (u64 (sym_Value sym + relocOffset))
   | None => e' = e
   end) /\
  (relType <> R_AARCH64_RELATIVE -> relType <> R_AARCH64_GLOB_DAT ->
   relType <> R_AARCH64_JUMP_SLOT -> relType <> R_AARCH64_ABS64 -> e' = e).
Proof.
  intros relType target Hmap e'. subst e'. unfold applyRelocation.
  fold relType. unfold reloc_target in target. fold target.
  split; [|split].
  - intros ->. cbn [Z.eqb R_AARCH64_RELATIVE Pos.eqb]. unfold qword.
    rewrite MemWrite_read_back by assumption.
    now rewrite u64_idemp, u64_int64, u64_add_r.
  - intros Hty.
    assert (Hsel : (relType =? R_AARCH64_RELATIVE) = false /\
                   (relType =? R_AARCH64_GLOB_DAT)
                   || (relType =? R_AARCH64_JUMP_SLOT) = true)
      by (destruct Hty as [-> | ->]; split; reflexivity).
    destruct Hsel as [-> ->].
    destruct (syms !! Z.shiftr (r_info r) 32) as [sym|]; [|reflexivity].
    destruct (sym_Value sym =? 0); cbn [negb].
    + destruct (String.eqb (sym_Name sym) "__stack_chk_guard").
      * unfold qword. now rewrite MemWrite_read_back by assumption.
      * destruct (String.eqb (sym_Name sym) "_ctype_"); [|reflexivity].
        unfold qword. now rewrite MemWrite_read_back by assumption.
    + unfold qword. rewrite MemWrite_read_back by assumption.
      now rewrite u64_idemp.
  - intros H1 H2 H3 H4.
    apply Z.eqb_neq in H1, H2, H3, H4. now rewrite H1, H2, H3, H4.
Qed.

Lemma GOT_and_RELATIVE_relocations_witness :
  qword (applyRelocation 0x40000000 ∅ {[ 1 := mkSymbol "__stack_chk_guard" 0 ]}
           (with_regions [(0x40000000, 0x1000)] fresh)
           (rela 0x10 1 R_AARCH64_GLOB_DAT 0))
        0x40000010
  = Some (TLSBase + 0x28).
Proof.
  destruct (GOT_and_RELATIVE_relocations 0x40000000 ∅
              {[ 1 := mkSymbol "__stack_chk_guard" 0 ]}
              (with_regions [(0x40000000, 0x1000)] fresh)
              (rela 0x10 1 R_AARCH64_GLOB_DAT 0) eq_refl) as (_ & H & _).
  exact (H (or_introl eq_refl)).
Defined.

End RelocationFrame.

(** ** Parsing RELA sections, symbol queries and PLT symbols *)

Section SymbolQueries.
Import Emu Elf GoStrings Obs.

Lemma length_encodeRela r : length (encodeRela r) = 24%nat.
Proof.
  unfold encodeRela. now rewrite !length_app, !length_PutUint64.
Qed.

Lemma drop_PutUint64 v (l : list Z) : drop 8 (PutUint64 v ++ l) = l.
Proof. rewrite drop_app_length'; [reflexivity | now rewrite length_PutUint64]. Qed.

Lemma Uint64_PutUint64_app v (l : list Z) :
  Uint64 (PutUint64 v ++ l) = u64 v.
Proof.
  unfold Uint64. rewrite take_app_length' by (now rewrite length_PutUint64).
  rewrite <- (take_ge (PutUint64 v) 8) at 1 by (rewrite length_PutUint64; lia).
  apply (Uint64_PutUint64 v).
Qed.

Lemma relaEntries_cons fuel r d :
  relaEntries (S fuel) (encodeRela r ++ d) = wrapRela r :: relaEntries fuel d.
Proof.
  cbn [relaEntries].
  replace (24 <=? length (encodeRela r ++ d))%nat with true
    by (symmetry; apply Nat.leb_le; rewrite length_app, length_encodeRela; lia).
  unfold encodeRela, wrapRela. rewrite <- !app_assoc.
  replace 24%nat with (8 + (8 + 8))%nat by reflexivity.
  replace 16%nat with (8 + 8)%nat by reflexivity.
  rewrite <- !drop_drop, !drop_PutUint64, !Uint64_PutUint64_app.
  reflexivity.
Qed.

Lemma relaEntries_short fuel d : (length d < 24)%nat -> relaEntries fuel d = [].
Proof.
  intros H. destruct fuel; [reflexivity|]. cbn [relaEntries].
  now replace (24 <=? length d)%nat with false
    by (symmetry; apply Nat.leb_gt; lia).
Qed.

Lemma relaEntries_decode fuel rs tail :
  (length rs <= fuel)%nat -> (length tail < 24)%nat ->
  relaEntries fuel (concat (map encodeRela rs) ++ tail) = map wrapRela rs.
Proof.
  revert fuel. induction rs as [|r rs IH]; intros fuel Hf Ht; cbn [map concat].
  - now apply relaEntries_short.
  - destruct fuel as [|fuel]; [simpl in Hf; lia|].
    rewrite <- app_assoc, relaEntries_cons. f_equal.
    apply IH; [simpl in Hf; lia | assumption].
Qed.

(** The loop that walks a RELA section decodes every whole entry, in
    order and each field modulo 2^64, and ignores a trailing fragment of
    fewer than 24 bytes; the fuel [len(data)] the model gives it is
    enough. *)
Theorem relaEntries_decodes_section (rs : list Rela) (tail : list Z) :
  (length tail < 24)%nat ->
  let data := concat (map encodeRela rs) ++ tail in
  relaEntries (length data) data = map wrapRela rs /\
  length (relaEntries (length data) data) = (length data / 24)%nat.
Proof.
  intros Ht data.
  assert (Hlen : length data = (24 * length rs + length tail)%nat).
  { unfold data. rewrite length_app. f_equal.
    induction rs as [|r rs IH]; cbn [map concat]; [reflexivity|].
    rewrite length_app, length_encodeRela, IH. simpl. lia. }
  assert (Hdec : relaEntries (length data) data = map wrapRela rs)
    by (apply relaEntries_decode; [lia | assumption]).
  split; [exact Hdec|].
  rewrite Hdec, length_map, Hlen.
  apply Nat.div_unique with (length tail); lia.
Qed.

Lemma relaEntries_decodes_section_witness :
  relaEntries
    (length (concat (map encodeRela [rela 0x10 1 R_AARCH64_ABS64 8]) ++ [1; 2; 3]))
    (concat (map encodeRela [rela 0x10 1 R_AARCH64_ABS64 8]) ++ [1; 2; 3])
  = map wrapRela [rela 0x10 1 R_AARCH64_ABS64 8].
Proof.
  apply (relaEntries_decodes_section [rela 0x10 1 R_AARCH64_ABS64 8] [1; 2; 3]).
  simpl; lia.
Defined.

Lemma FindSymbolsMatching_snoc predicate order kv :
  FindSymbolsMatching predicate (order ++ [kv])
  = if predicate (fst kv)
    then <[fst kv := snd kv]> (FindSymbolsMatching predicate order)
    else FindSymbolsMatching predicate order.
Proof. unfold FindSymbolsMatching. now rewrite foldl_snoc. Qed.

Lemma FindSymbolsMatching_lookup predicate order name addr :
  NoDup order.*1 ->
  FindSymbolsMatching predicate order !! name = Some addr <->
  (name, addr) ∈ order /\ predicate name = true.
Proof.
  induction order as [|[k v] order IH] using rev_ind; intros Hnd.
  - unfold FindSymbolsMatching. simpl. rewrite lookup_empty. split.
    + discriminate.
    + intros [H _]. now apply elem_of_nil in H.
  - rewrite fmap_app in Hnd. apply NoDup_app in Hnd as (Hnd & Hfresh & _).
    specialize (IH Hnd).
    assert (Hk : forall a, (k, a) ∈ order -> False).
    { intros a Ha. apply (Hfresh k).
      - apply list_elem_of_fmap. now exists (k, a).
      - simpl. apply elem_of_cons. now left. }
    rewrite FindSymbolsMatching_snoc. cbn [fst snd].
    rewrite elem_of_app, list_elem_of_singleton.
    destruct (predicate k) eqn:Hp.
    + destruct (decide (name = k)) as [->|Hne].
      * rewrite lookup_insert_eq. split.
        -- intros [= ->]. split; [now right | assumption].
        -- intros [[Hin|[= ->]] _]; [now destruct (Hk _ Hin) | reflexivity].
      * rewrite lookup_insert_ne by congruence. rewrite IH. split.
        -- intros [Hin Hpn]. split; [now left | assumption].
        -- intros [[Hin|[= -> ->]] Hpn]; [now split | contradiction].
    + rewrite IH. split.
      * intros [Hin Hpn]. split; [now left | assumption].
      * intros [[Hin|[= -> ->]] Hpn]; [now split | congruence].
Qed.

(** [FindSymbolsMatching] does not depend on the order in which the map
    is ranged over: in every order it returns the symbols whose name
    satisfies the predicate, each with its address, and nothing else.
    [FindSymbolsBySubstring] is its instance for the case-insensitive
    substring test (on ASCII names and an ASCII substring). *)
Theorem FindSymbolsMatching_is_filter (info : ELFInfo)
    (predicate : string -> bool) (order : list (string * Z)) :
  range_of (Symbols info) order ->
  FindSymbolsMatching predicate order
  = filter (fun kv => predicate kv.1 = true) (Symbols info) /\
  forall substr,
    ascii_symbols info -> is_ascii substr = true ->
    FindSymbolsBySubstring substr order
    = filter (fun kv => Contains (ToLower kv.1) (ToLower substr) = true)
             (Symbols info).
Proof.
  intros Hr.
  assert (Hnd : NoDup order.*1).
  { unfold range_of in Hr. rewrite Hr. apply NoDup_fst_map_to_list. }
  assert (Hgen : forall p, FindSymbolsMatching p order
                           = filter (fun kv => p kv.1 = true) (Symbols info)).
  { intros p. apply map_eq. intros name. apply option_eq. intros addr.
    rewrite FindSymbolsMatching_lookup by assumption.
    rewrite map_lookup_filter_Some. cbn [fst].
    unfold range_of in Hr. rewrite Hr, elem_of_map_to_list. reflexivity. }
  split; [apply Hgen|]. intros substr _ _. apply Hgen.
Qed.

Lemma FindSymbolsMatching_is_filter_witness :
  FindSymbolsMatching (fun name => String.eqb name "regist_lua_a")
                      (ord_cand lua_ab)
  = filter (fun kv => String.eqb kv.1 "regist_lua_a" = true) (Symbols lua_pair).
Proof.
  apply (FindSymbolsMatching_is_filter lua_pair
           (fun name => String.eqb name "regist_lua_a") (ord_cand lua_ab)).
  unfold range_of; vm_compute; first [reflexivity | apply perm_swap].
Defined.

End SymbolQueries.

(** ** Pattern matching, PLT symbols and the printable tests *)

Section Patterns.
Import Emu Elf GoStrings Stubs Setters Obs.

(** [matchPattern] panics on the pattern that is a lone star, whatever
    the symbol name, and returns on every other pattern. *)
Theorem matchPattern_panics_on_lone_star (name pattern : string) :
  (exists msg, matchPattern name pattern = Panicked msg) <-> pattern = "*"%string.
Proof.
  split.
  - intros [msg H].
    destruct (String.string_dec pattern "*") as [E|E]; [exact E|].
    destruct (matchPattern_returns name pattern E) as [m Hm]. congruence.
  - intros ->. now eexists.
Qed.

Lemma addPLTName_lookup name pltAddr (m1 m2 : gmap string Z) k :
  (addPLTName name pltAddr m1 !! k = m1 !! k /\
   addPLTName name pltAddr m2 !! k = m2 !! k) \/
  (addPLTName name pltAddr m1 !! k = Some pltAddr /\
   addPLTName name pltAddr m2 !! k = Some pltAddr).
Proof.
  unfold addPLTName.
  assert (H1 : forall (m1 m2 : gmap string Z) n,
            (<[n := pltAddr]> m1 !! k = m1 !! k /\
             <[n := pltAddr]> m2 !! k = m2 !! k) \/
            (<[n := pltAddr]> m1 !! k = Some pltAddr /\
             <[n := pltAddr]> m2 !! k = Some pltAddr)).
  { intros a b n. destruct (decide (n = k)) as [->|Hne].
    - right. now rewrite !lookup_insert_eq.
    - left. now rewrite !lookup_insert_ne. }
  assert (H2 : forall n n',
            (<[n' := pltAddr]> (<[n := pltAddr]> m1) !! k = m1 !! k /\
             <[n' := pltAddr]> (<[n := pltAddr]> m2) !! k = m2 !! k) \/
            (<[n' := pltAddr]> (<[n := pltAddr]> m1) !! k = Some pltAddr /\
             <[n' := pltAddr]> (<[n := pltAddr]> m2) !! k = Some pltAddr)).
  { intros n n'. destruct (decide (n' = k)) as [->|Hne].
    - right. now rewrite !lookup_insert_eq.
    - rewrite !(lookup_insert_ne _ n' k) by assumption. apply H1. }
  destruct (Index name "@@"); [apply H2|].
  destruct (Index name "@"); [apply H2 | apply H1].
Qed.

Lemma addPLTSymbol_step pltBase dynSyms symbols imports j r :
  exists s1 i1,
    addPLTSymbol pltBase dynSyms (symbols, imports, j) r = (s1, i1, j + 1) /\
    forall k, (s1 !! k = symbols !! k /\ i1 !! k = imports !! k) \/
              (s1 !! k = Some (plt_slot pltBase j) /\
               i1 !! k = Some (plt_slot pltBase j)).
Proof.
  unfold addPLTSymbol.
  destruct ((Z.shiftr (r_info r) 32 - 1 <? 0)
            || (Z.shiftr (r_info r) 32 - 1 >=? Z.of_nat (length dynSyms)));
    [do 2 eexists; split; [reflexivity | now left]|].
  destruct (dynSyms !! Z.to_nat (Z.shiftr (r_info r) 32 - 1)) as [sym|];
    [|do 2 eexists; split; [reflexivity | now left]].
  destruct (String.eqb (sym_Name sym) "");
    [do 2 eexists; split; [reflexivity | now left]|].
  destruct (sym_Value sym =? 0);
    [|do 2 eexists; split; [reflexivity | now left]].
  do 2 eexists. split; [reflexivity|]. intros k.
  apply addPLTName_lookup.
Qed.

Lemma addPLTSymbol_fold pltBase dynSyms rs symbols imports j :
  exists s' i',
    foldl (addPLTSymbol pltBase dynSyms) (symbols, imports, j) rs
    = (s', i', j + Z.of_nat (length rs)) /\
    forall k, (s' !! k = symbols !! k /\ i' !! k = imports !! k) \/
              exists n, j <= n < j + Z.of_nat (length rs) /\
                        s' !! k = Some (plt_slot pltBase n) /\
                        i' !! k = Some (plt_slot pltBase n).
Proof.
  revert symbols imports j.
  induction rs as [|r rs IH]; intros symbols imports j; cbn [foldl].
  - exists symbols, imports. split; [f_equal; simpl; lia | now left].
  - destruct (addPLTSymbol_step pltBase dynSyms symbols imports j r)
      as (s1 & i1 & -> & H1).
    destruct (IH s1 i1 (j + 1)) as (s' & i' & -> & H2).
    exists s', i'. split.
    + f_equal. cbn [length]. lia.
    + intros k. destruct (H2 k) as [[E1 E2] | (n & Hn & E1 & E2)].
      * destruct (H1 k) as [[F1 F2] | [F1 F2]].
        -- left. split; congruence.
        -- right. exists j. cbn [length]. split; [lia|]. split; congruence.
      * right. exists n. cbn [length]. split; [lia | now split].
Qed.

Lemma relaEntries_length fuel (data : list Z) :
  (length (relaEntries fuel data) <= length data / 24)%nat.
Proof.
  revert data.
  induction fuel as [|fuel IH]; intros data; cbn [relaEntries length]; [lia|].
  destruct (Nat.leb_spec 24 (length data)) as [Hle|Hlt]; cbn [length]; [|lia].
  specialize (IH (drop 24 data)). rewrite length_drop in IH.
  assert (E : (length data / 24 = 1 + (length data - 24) / 24)%nat).
  { replace (length data) with (1 * 24 + (length data - 24))%nat at 1 by lia.
    now rewrite Nat.div_add_l by lia. }
  lia.
Qed.

(** [addPLTSymbols] keeps the two maps in step: under every name, either
    both maps hold what they held, or both hold the address of one and
    the same PLT entry, [pltBase + 32 + 16 k] for an entry number [k] of
    [.rela.plt]; when the file has no [.plt] or no [.rela.plt], or its
    dynamic symbols cannot be read, both maps are left as they are. *)
Theorem addPLTSymbols_keeps_maps_in_step (pltAddr : option Z)
    (relaData : option (list Z)) (dynSyms : option (list Symbol))
    (relocOffset : Z) (symbols imports : gmap string Z) :
  let res := addPLTSymbols pltAddr relaData dynSyms relocOffset symbols
                           imports in
  match pltAddr, relaData, dynSyms with
  | Some plt, Some data, Some _ =>
    forall name,
      (res.1 !! name = symbols !! name /\ res.2 !! name = imports !! name) \/
      exists k, 0 <= k < Z.of_nat (length data / 24) /\
                res.1 !! name = Some (plt_slot (u64 (plt + relocOffset)) k) /\
                res.2 !! name = Some (plt_slot (u64 (plt + relocOffset)) k)
  | _, _, _ => res = (symbols, imports)
  end.
Proof.
  intros res. subst res. unfold addPLTSymbols.
  destruct pltAddr as [plt|]; [|reflexivity].
  destruct relaData as [data|]; [|reflexivity].
  destruct dynSyms as [syms|]; [|reflexivity].
  intros name.
  destruct (addPLTSymbol_fold (u64 (plt + relocOffset)) syms
              (relaEntries (length data) data) symbols imports 0)
    as (s' & i' & -> & H).
  cbn [fst snd].
  pose proof (relaEntries_length (length data) data) as Hlen.
  destruct (H name) as [E | (n & Hn & E)]; [now left|].
  right. exists n. split; [lia | exact E].
Qed.

Lemma isPrintableASCII_spec data :
  Emu.isPrintableASCII data = true <-> printable data.
Proof.
  unfold Emu.isPrintableASCII, printable.
  destruct data as [|b data]; cbn [length Nat.eqb].
  - split; [discriminate | now intros [H _]].
  - rewrite forallb_forall. split.
    + intros H. split; [discriminate|]. apply Forall_forall. intros x Hx.
      apply list_elem_of_In in Hx. specialize (H x Hx).
      apply negb_true_iff, orb_false_elim in H as [H1 H2].
      apply Z.ltb_ge in H1. rewrite Z.gtb_ltb in H2. apply Z.ltb_ge in H2. lia.
    + intros [_ H] x Hx. rewrite Forall_forall in H.
      apply list_elem_of_In in Hx. specialize (H x Hx).
      apply negb_true_iff, orb_false_intro; [apply Z.ltb_ge; lia|].
      rewrite Z.gtb_ltb. apply Z.ltb_ge. lia.
Qed.

(** The three printable tests of the code accept the same byte strings:
    the byte-wise test in front of the PHI scan of [MemRead] and the two
    rune-wise tests of the setters package all accept exactly the
    non-empty strings whose bytes lie in 0x20..0x7E (a multi-byte UTF-8
    sequence decodes to a rune above 0x7E, an invalid byte to U+FFFD). *)
Theorem printable_tests_agree (s : list Z) :
  Emu.isPrintableASCII s = Setters.isPrintable s /\
  Setters.isPrintableASCII s = Setters.isPrintable s /\
  (Setters.isPrintable s = true <->
   s <> [] /\ Forall (fun c => 0x20 <= c <= 0x7E) s).
Proof.
  split; [|split].
  - destruct (Setters.isPrintable s) eqn:E.
    + apply isPrintableASCII_spec. now apply isPrintable_spec.
    + destruct (Emu.isPrintableASCII s) eqn:E'; [|reflexivity].
      apply isPrintableASCII_spec, isPrintable_spec in E'. congruence.
  - unfold Setters.isPrintableASCII, Setters.isPrintable.
    destruct s as [|c s]; [reflexivity|]. cbn [length Nat.eqb Nat.ltb Nat.leb].
    apply andb_true_r.
  - apply isPrintable_spec.
Qed.

End Patterns.
